(** * Synthetic tick generation from OHLCV candles

    A shallow embedding of [src/data_generator/tick_generator.py]
    (class [SyntheticTickGenerator]) and the properties of its tick streams.

    Conventions of the model.
    - Prices, weights and volumes are Python/NumPy floats in the source; here
      they are rationals ([Q]) with exact arithmetic.  The one place where the
      source can leave the finite floats (the division by the sum of the
      weights in [_allocate_volumes]) is modelled with [option]: [None]
      stands for a NaN or an infinity.
    - The process-wide random stream of [np.random] is an explicit state that
      every drawing function threads ([M]); the generator behind it is the
      interface [NumPy], so a statement proved for every instance of
      [NumPy] holds for every realization of the stream.
    - Python exceptions are values of [exn]; a raising call returns [Raise].
    - A pandas [Timestamp] is an integer count of nanoseconds, a
      [datetime.timedelta] an integer count of microseconds. *)

From Stdlib Require Import ZArith QArith Qround Qminmax Qabs.
From Stdlib Require Import String List Sorted Permutation Bool Lia Lqa.
Import ListNotations.

Open Scope Q_scope.

(** ** Exceptions and the stream-threading monad *)

Inductive exn : Set :=
| ValueError
| ZeroDivisionError
| KeyError
| IndexError.

Inductive result (A : Type) : Type :=
| Ok (a : A)
| Raise (e : exn).

Arguments Ok {A} a.
Arguments Raise {A} e.

(** What [tick_generator.py] uses of NumPy without computing it itself: the
    global [RandomState] behind [np.random] and [np.exp].
    [legacy_gauss] is one standard normal deviate, [random_sample] one
    uniform deviate of the interval [0, 1). *)
Class NumPy : Type := {
  RandomState : Type;
  np_seed : Z -> RandomState;
  legacy_gauss : RandomState -> Q * RandomState;
  random_sample : RandomState -> Q * RandomState;
  np_exp : Q -> Q
}.

Section Monad.

Context {np : NumPy}.

Definition M (A : Type) : Type := RandomState -> result (A * RandomState).

Definition ret {A} (a : A) : M A := fun s => Ok (a, s).

Definition throw {A} (e : exn) : M A := fun _ => Raise e.

Definition bind {A B} (m : M A) (f : A -> M B) : M B :=
  fun s => match m s with
           | Ok (a, s') => f a s'
           | Raise e => Raise e
           end.

Definition lift {A} (r : result A) : M A :=
  fun s => match r with
           | Ok a => Ok (a, s)
           | Raise e => Raise e
           end.

End Monad.

Notation "x <- m ;; k" := (bind m (fun x => k))
  (at level 100, m at next level, right associativity).

Notation "' pat <- m ;; k" := (bind m (fun x => match x with pat => k end))
  (at level 100, pat pattern, m at next level, right associativity).

Section Generator.

Context {np : NumPy}.

(** ** Numeric helpers *)

Definition Qltb (x y : Q) : bool := negb (Qle_bool y x).

(** Round half to even, the rounding of [np.rint] and of [timedelta]. *)
Definition rint (x : Q) : Z :=
  let f := Qfloor x in
  let r := x - inject_Z f in
  if Qltb r (1 # 2) then f
  else if Qltb (1 # 2) r then (f + 1)%Z
  else if Z.even f then f else (f + 1)%Z.

(** [round(x, 4)] on a NumPy float: scale, [rint], scale back. *)
Definition round4 (x : Q) : Q := inject_Z (rint (x * 10000)) / 10000.

(** Truncation toward zero: [int(x)] and [ndarray.astype(int)]. *)
Definition trunc (x : Q) : Z := Z.quot (Qnum x) (Zpos (Qden x)).

(** [np.clip(x, lo, hi)] is [minimum(maximum(x, lo), hi)]. *)
Definition clip (x lo hi : Q) : Q := Qmin (Qmax x lo) hi.

Definition Qsum (l : list Q) : Q := fold_right Qplus 0 l.

Definition Zsum (l : list Z) : Z := fold_right Z.add 0%Z l.

Fixpoint zip_with {A B C} (f : A -> B -> C) (l : list A) (l' : list B) : list C :=
  match l, l' with
  | a :: t, b :: t' => f a b :: zip_with f t t'
  | _, _ => []
  end.

(** ** The NumPy calls of the generator *)

(** [np.random.seed(seed)]: a seed outside [0, 2**32 - 1] is a [ValueError]. *)
Definition np_random_seed (seed : Z) : M unit :=
  fun _ => if ((0 <=? seed) && (seed <? 2 ^ 32))%Z
           then Ok (tt, np_seed seed)
           else Raise ValueError.

Definition gauss : M Q := fun s => Ok (legacy_gauss s).

Definition sample : M Q := fun s => Ok (random_sample s).

Fixpoint gauss_n (n : nat) : M (list Q) :=
  match n with
  | O => ret []
  | S k => z <- gauss ;; zs <- gauss_n k ;; ret (z :: zs)
  end.

(** [np.random.normal(loc, scale, size)]: [scale < 0] and a negative [size]
    are [ValueError]s; each value is [loc + scale * gauss]. *)
Definition normal (loc scale : Q) (size : Z) : M (list Q) :=
  if Qltb scale 0 then throw ValueError
  else if (size <? 0)%Z then throw ValueError
  else zs <- gauss_n (Z.to_nat size) ;;
       ret (map (fun z => loc + scale * z) zs).

(** [np.random.normal(loc, scale)], one value. *)
Definition normal1 (loc scale : Q) : M Q :=
  if Qltb scale 0 then throw ValueError
  else z <- gauss ;; ret (loc + scale * z).

(** [np.random.uniform(low, high)]. *)
Definition uniform (low high : Q) : M Q :=
  u <- sample ;; ret (low + (high - low) * u).

(** [np.linspace(start, stop, num)] with the end point included: [num - 1]
    equal steps, a lone [start] for [num = 1], a [ValueError] for a negative
    [num].  (NumPy overwrites the last entry with [stop]; in exact
    arithmetic it has that value already.) *)
Definition linspace (start stop : Q) (num : Z) : result (list Q) :=
  if (num <? 0)%Z then Raise ValueError
  else
    let div := (num - 1)%Z in
    let delta := stop - start in
    Ok (map (fun i : nat =>
               if (0 <? div)%Z
               then inject_Z (Z.of_nat i) * (delta / inject_Z div) + start
               else inject_Z (Z.of_nat i) * delta + start)
            (seq 0 (Z.to_nat num))).

(** ** Data model *)

(** The instance attributes set by [__init__]. *)
Record SyntheticTickGenerator : Type := {
  ticks_per_min : Z;
  spread_mean : Q;
  spread_vol : Q;
  vol_noise : Q;
  trend_weight : Q;
  seed : Z
}.

(** One row of [ohlcv_df] after [dropna]: every field is a number. *)
Record Row : Type := {
  Open : Q;
  High : Q;
  Low : Q;
  Close : Q;
  Volume : Q
}.

(** ** Mid-price path *)

(** [_generate_midpath(self, row, num_ticks)] *)
Definition _generate_midpath (self : SyntheticTickGenerator) (row : Row)
    (num_ticks : Z) : M (list Q) :=
  let start := Open row in
  let end_ := Close row in
  path <- lift (linspace start end_ num_ticks) ;;
  noise <- normal 0 ((High row - Low row) / 200) num_ticks ;;
  ramp <- lift (linspace 0 1 num_ticks) ;;
  let drift := map (fun r => trend_weight self * (end_ - start) * r) ramp in
  let mid := zip_with Qplus (zip_with Qplus path drift) noise in
  ret (map (fun m => clip m (Low row) (High row)) mid).

(** ** Volume allocation *)

(** Division of one array entry by a scalar.  NumPy does not raise on a zero
    divisor: it warns and stores NaN or an infinity, here [None]. *)
Definition true_divide (x y : Q) : option Q :=
  if Qeq_bool y 0 then None else Some (x / y).

(** [ndarray.astype(int)] on one entry; the cast of a non-finite value has
    no defined result. *)
Definition astype_int (x : option Q) : option Z := option_map trunc x.

(** [_allocate_volumes(self, total_volume, num_ticks)] *)
Definition _allocate_volumes (self : SyntheticTickGenerator) (total_volume : Q)
    (num_ticks : Z) : M (list (option Z)) :=
  draws <- normal 1 (vol_noise self) num_ticks ;;
  let weights := map Qabs draws in
  let total := Qsum weights in
  let weights := map (fun w => true_divide w total) weights in
  ret (map (fun w => astype_int (option_map (fun w => w * total_volume) w))
           weights).

(** ** Spread, side and trade price *)

(** [_generate_spread(self, mid_price)] *)
Definition _generate_spread (self : SyntheticTickGenerator) (mid_price : Q)
    : M (Q * Q) :=
  spread_pct <- normal1 (spread_mean self) (spread_vol self) ;;
  let spread := mid_price * spread_pct in
  let bid := mid_price - spread / 2 in
  let ask := mid_price + spread / 2 in
  ret (bid, ask).

Inductive Side : Set := buy | sell.

(** [np.random.choice(["buy", "sell"], p=[prob_buy, 1 - prob_buy])]: one
    uniform deviate is located in the cumulative probabilities. *)
Definition choice_side (prob_buy : Q) : M Side :=
  u <- sample ;; ret (if Qltb u prob_buy then buy else sell).

Record Tick : Type := {
  timestamp : Z;
  bid : Q;
  ask : Q;
  trade_price : Q;
  volume : option Z;
  side : Side
}.

(** ** Timestamps *)

(** [a / b] on Python integers. *)
Definition int_true_div (a b : Z) : result Q :=
  if (b =? 0)%Z then Raise ZeroDivisionError
  else Ok (inject_Z a / inject_Z b).

(** [timedelta(seconds=x)]: microseconds, rounded half to even. *)
Definition timedelta (seconds : Q) : Z := rint (seconds * 1000000).

(** [timestamp + i * dt] on a nanosecond [Timestamp]. *)
Definition tick_time (timestamp : Z) (i : nat) (dt : Z) : Z :=
  (timestamp + Z.of_nat i * dt * 1000)%Z.

(** [a[i]] on an array. *)
Definition getitem {A} (a : list A) (i : nat) : result A :=
  match nth_error a i with
  | Some x => Ok x
  | None => Raise IndexError
  end.

(** ** The per-candle loops of [generate_ticks] *)

(** The body of [for i in range(num_ticks)]. *)
Definition tick_body (self : SyntheticTickGenerator) (ts : Z) (row : Row)
    (dt : Z) (mid_prices : list Q) (volumes : list (option Z)) (i : nat)
    : M Tick :=
  let tick_timestamp := tick_time ts i dt in
  mid <- lift (getitem mid_prices i) ;;
  ' (bid, ask) <- _generate_spread self mid ;;
  let candle_is_bull := Qltb (Open row) (Close row) in
  let prob_buy := if candle_is_bull then 55 # 100 else 45 # 100 in
  side <- choice_side prob_buy ;;
  trade_price <-
    match side with
    | buy => f <- uniform (999 # 1000) (1001 # 1000) ;; ret (ask * f)
    | sell => f <- uniform (999 # 1000) (1001 # 1000) ;; ret (bid * f)
    end ;;
  vol <- lift (getitem volumes i) ;;
  ret {| timestamp := tick_timestamp;
         bid := round4 bid;
         ask := round4 ask;
         trade_price := round4 trade_price;
         volume := vol;
         side := side |}.

(** The loop [for i in range(num_ticks)] over the indices [idx], appending
    each tick. *)
Fixpoint tick_loop (self : SyntheticTickGenerator) (ts : Z) (row : Row)
    (dt : Z) (mid_prices : list Q) (volumes : list (option Z))
    (idx : list nat) : M (list Tick) :=
  match idx with
  | [] => ret []
  | i :: rest =>
      tick <- tick_body self ts row dt mid_prices volumes i ;;
      more <- tick_loop self ts row dt mid_prices volumes rest ;;
      ret (tick :: more)
  end.

(** The body of [for timestamp, row in ohlcv_df.iterrows()] once [num_ticks]
    is known. *)
Definition candle_ticks (self : SyntheticTickGenerator) (ts : Z) (row : Row)
    (num_ticks : Z) : M (list Tick) :=
  mid_prices <- _generate_midpath self row num_ticks ;;
  volumes <- _allocate_volumes self (Volume row) num_ticks ;;
  seconds <- lift (int_true_div 60 num_ticks) ;;
  let dt := timedelta seconds in
  tick_loop self ts row dt mid_prices volumes (seq 0 (Z.to_nat num_ticks)).

(** The choice of [num_ticks] at the head of the loop body. *)
Definition pick_num_ticks (self : SyntheticTickGenerator)
    (tick_distribution : option (list Q)) (minute_idx : nat) : result Z :=
  match tick_distribution with
  | Some d =>
      match getitem d minute_idx with
      | Ok x => Ok (Z.max 1 (trunc x))
      | Raise e => Raise e
      end
  | None => Ok (ticks_per_min self)
  end.

(** The outer loop; the result is [all_ticks]. *)
Fixpoint candle_loop (self : SyntheticTickGenerator)
    (tick_distribution : option (list Q)) (minute_idx : nat)
    (rows : list (Z * Row)) : M (list Tick) :=
  match rows with
  | [] => ret []
  | (ts, row) :: rest =>
      num_ticks <- lift (pick_num_ticks self tick_distribution minute_idx) ;;
      ticks <- candle_ticks self ts row num_ticks ;;
      more <- candle_loop self tick_distribution (S minute_idx) rest ;;
      ret (ticks ++ more)
  end.

(** ** Intraday distribution *)

(** [_u_shape_curve(self, minutes, total_minutes)] *)
Definition _u_shape_curve (minutes : list Z) (total_minutes : Z) : M (list Q) :=
  let normalized_time :=
    map (fun m => inject_Z m / inject_Z total_minutes) minutes in
  let opening_weight :=
    map (fun t => 3 * np_exp (- (10) * t)) normalized_time in
  let closing_weight :=
    map (fun t => 3 * np_exp (- (10) * (1 - t))) normalized_time in
  let midday_weight := 1 in
  let curve :=
    map (fun c => c + midday_weight)
        (zip_with Qplus opening_weight closing_weight) in
  noise <- normal 1 (1 # 10) (Z.of_nat (length minutes)) ;;
  let curve := zip_with Qmult curve noise in
  ret (map (fun c => Qmax (1 # 10) c) curve).

(** [_calculate_intraday_distribution(self, num_minutes, total_ticks)] *)
Definition _calculate_intraday_distribution (num_minutes : nat)
    (total_ticks : Z) : M (list Q) :=
  let minutes := map Z.of_nat (seq 0 num_minutes) in
  u_curve <- _u_shape_curve minutes (Z.of_nat num_minutes) ;;
  let total := Qsum u_curve in
  let distribution :=
    map (fun u => u / total * inject_Z total_ticks) u_curve in
  ret (map (fun d => Qmax 1 d) distribution).

(** ** Frames *)

(** One row of the caller's [ohlcv_df]: a missing or NaN cell is [None]. *)
Record RawRow : Type := {
  raw_Open : option Q;
  raw_High : option Q;
  raw_Low : option Q;
  raw_Close : option Q;
  raw_Volume : option Q
}.

Definition complete (r : RawRow) : option Row :=
  match raw_Open r, raw_High r, raw_Low r, raw_Close r, raw_Volume r with
  | Some o, Some h, Some l, Some c, Some v =>
      Some {| Open := o; High := h; Low := l; Close := c; Volume := v |}
  | _, _, _, _, _ => None
  end.

(** [ohlcv_df.dropna(subset=["Open", "High", "Low", "Close", "Volume"])] *)
Fixpoint dropna (df : list (Z * RawRow)) : list (Z * Row) :=
  match df with
  | [] => []
  | (ts, r) :: rest =>
      match complete r with
      | Some row => (ts, row) :: dropna rest
      | None => dropna rest
      end
  end.

(** The frame of ticks: its column labels and its records in row order. *)
Record TickFrame : Type := {
  columns : list string;
  records : list Tick
}.

(** [pd.DataFrame(all_ticks)]: the columns are the keys of the tick
    dictionaries; a frame built from an empty list has no column. *)
Definition DataFrame (all_ticks : list Tick) : TickFrame :=
  match all_ticks with
  | [] => {| columns := []; records := [] |}
  | _ => {| columns := ["timestamp"; "bid"; "ask"; "trade_price"; "volume";
                        "side"]%string;
            records := all_ticks |}
  end.

Fixpoint insert_by_time (t : Tick) (l : list Tick) : list Tick :=
  match l with
  | [] => [t]
  | u :: rest =>
      if (timestamp t <=? timestamp u)%Z then t :: l
      else u :: insert_by_time t rest
  end.

Fixpoint sort_by_time (l : list Tick) : list Tick :=
  match l with
  | [] => []
  | t :: rest => insert_by_time t (sort_by_time rest)
  end.

(** [df.sort_values(by)] for [by = "timestamp"], followed by
    [reset_index(drop=True)]: a label that is not a column is a [KeyError].
    (pandas leaves the relative order of equal timestamps open; the model
    keeps it.) *)
Definition sort_values (df : TickFrame) (by_ : string) : result TickFrame :=
  if existsb (String.eqb by_) (columns df)
  then Ok {| columns := columns df; records := sort_by_time (records df) |}
  else Raise KeyError.

(** A Python [dict] with string keys, here with the integer entries of
    [b3_stats]. *)
Definition Dict : Type := list (string * Z).

Fixpoint dict_get (d : Dict) (k : string) : option Z :=
  match d with
  | [] => None
  | (k', v) :: rest => if String.eqb k k' then Some v else dict_get rest k
  end.

(** ** The generator *)

(** [__init__]: stores the arguments and seeds the global stream. *)
Definition __init__ (ticks_per_min : Z)
    (spread_mean spread_vol vol_noise trend_weight : Q) (seed : Z)
    : M SyntheticTickGenerator :=
  let self := {| ticks_per_min := ticks_per_min;
                 spread_mean := spread_mean;
                 spread_vol := spread_vol;
                 vol_noise := vol_noise;
                 trend_weight := trend_weight;
                 seed := seed |} in
  _ <- np_random_seed seed ;;
  ret self.

(** The schedule computed before the loop: [if b3_stats and 'totneg' in
    b3_stats]. *)
Definition schedule (num_minutes : nat) (b3_stats : option Dict)
    : M (option (list Q)) :=
  match b3_stats with
  | Some ((_ :: _) as d) =>
      match dict_get d "totneg" with
      | Some total_ticks_target =>
          d <- _calculate_intraday_distribution num_minutes
                 total_ticks_target ;;
          ret (Some d)
      | None => ret None
      end
  | _ => ret None
  end.

(** [generate_ticks(self, ohlcv_df, b3_stats)] *)
Definition generate_ticks (self : SyntheticTickGenerator)
    (ohlcv_df : list (Z * RawRow)) (b3_stats : option Dict) : M TickFrame :=
  let ohlcv_df := dropna ohlcv_df in
  tick_distribution <- schedule (length ohlcv_df) b3_stats ;;
  all_ticks <- candle_loop self tick_distribution 0 ohlcv_df ;;
  let ticks_df := DataFrame all_ticks in
  lift (sort_values ticks_df "timestamp").

(** ** Client programs *)

(** [SyntheticTickGenerator(...).generate_ticks(ohlcv_df, b3_stats)]: one
    run, from construction to the frame. *)
Definition construct_and_generate (ticks_per_min : Z)
    (spread_mean spread_vol vol_noise trend_weight : Q) (seed : Z)
    (ohlcv_df : list (Z * RawRow)) (b3_stats : option Dict) : M TickFrame :=
  self <- __init__ ticks_per_min spread_mean spread_vol vol_noise
            trend_weight seed ;;
  generate_ticks self ohlcv_df b3_stats.

(** One instance, [generate_ticks] called twice with the same arguments. *)
Definition generate_twice (ticks_per_min : Z)
    (spread_mean spread_vol vol_noise trend_weight : Q) (seed : Z)
    (ohlcv_df : list (Z * RawRow)) (b3_stats : option Dict)
    : M (TickFrame * TickFrame) :=
  self <- __init__ ticks_per_min spread_mean spread_vol vol_noise
            trend_weight seed ;;
  first <- generate_ticks self ohlcv_df b3_stats ;;
  second <- generate_ticks self ohlcv_df b3_stats ;;
  ret (first, second).

End Generator.

(** ** Vocabulary of the statements *)

Section Vocabulary.

Context {np : NumPy}.

(** The spread fraction [_generate_spread] draws when the stream is in
    state [s]. *)
Definition spread_fraction (self : SyntheticTickGenerator) (s : RandomState)
    : Q :=
  spread_mean self + spread_vol self * fst (legacy_gauss s).

(** The timestamps of the ticks of one candle that starts at [ts] and
    carries [n] ticks. *)
Definition candle_times (ts n : Z) : list Z :=
  map (fun i => tick_time ts i (timedelta (60 / inject_Z n)))
      (seq 0 (Z.to_nat n)).

(** No session statistic: [b3_stats] is [None], empty, or has no
    ['totneg'] entry. *)
Definition no_session_statistic (b3_stats : option Dict) : Prop :=
  match b3_stats with
  | Some ((_ :: _) as d) => dict_get d "totneg" = None
  | _ => True
  end.

(** A configuration inside the documented domain: a positive tick count and
    non-negative volatilities. *)
Definition valid_config (self : SyntheticTickGenerator) : Prop :=
  (1 <= ticks_per_min self)%Z /\ 0 <= spread_vol self /\ 0 <= vol_noise self.

(** A tick count whose ticks stay inside the candle's minute: it divides
    the 60,000,000 microseconds of the minute, or it is small enough
    (at most 10,954) for the rounding of the step to the microsecond not to
    add up to a full step. *)
Definition fits_minute (n : Z) : Prop :=
  (1 <= n)%Z /\
  ((n | 60000000)%Z \/ (n * (n - 1) < 120000000)%Z).

(** Two candle starts at least one minute (in nanoseconds) apart. *)
Definition minute_apart (a b : Z) : Prop := (a + 60000000000 <= b)%Z.

(** Every candle has its low at or below its high. *)
Definition well_formed (rows : list (Z * Row)) : Prop :=
  Forall (fun r => Low (snd r) <= High (snd r)) rows.

End Vocabulary.

(** ** A scripted stream

    A realization of the random stream given as two tables: the normal
    deviates and the uniform deviates, read by position; seeding rewinds to
    position 0 of the tables of that seed. *)

(** A positive rational stand-in for [exp]: the Pade quotient
    [1 / (1 - x + x^2/2)] left of 0, the Taylor polynomial right of it. *)
Definition exp_approx (x : Q) : Q :=
  if Qle_bool 0 x then 1 + x + x * x / 2 else 1 / (1 - x + x * x / 2).

Definition scripted (g u : Z -> nat -> Q) : NumPy := {|
  RandomState := Z * nat;
  np_seed := fun z => (z, O);
  legacy_gauss := fun s => (g (fst s) (snd s), (fst s, S (snd s)));
  random_sample := fun s => (u (fst s) (snd s), (fst s, S (snd s)));
  np_exp := exp_approx
|}.

(** A table with a default for the positions past its end. *)
Definition table (l : list Q) (d : Q) : Z -> nat -> Q :=
  fun _ n => nth n l d.

(** The stream whose normal deviates are all 0 and whose uniform deviates
    are all 1/2. *)
Definition calm : NumPy := scripted (table [] 0) (table [] (1 # 2)).

(** A stream whose third normal deviate is six standard deviations low. *)
Definition inverted : NumPy :=
  scripted (table [0; 0; - (6)] 0) (table [] (1 # 2)).

(** A stream whose normal deviates are all -5/2. *)
Definition cancelling : NumPy :=
  scripted (table [] (- (5 # 2))) (table [] (1 # 2)).

(** A stream whose normal deviates are 0 three times, then 1. *)
Definition drifting : NumPy :=
  scripted (table [0; 0; 0] 1) (table [] (1 # 2)).

(** The candle of the end-to-end example: 09:30:00 as nanoseconds of the
    day. *)
Definition example_row : Row :=
  {| Open := 10; High := 102 # 10; Low := 995 # 100; Close := 1015 # 100;
     Volume := 12000 |}.

Definition example_raw : RawRow :=
  {| raw_Open := Some 10; raw_High := Some (102 # 10);
     raw_Low := Some (995 # 100); raw_Close := Some (1015 # 100);
     raw_Volume := Some 12000 |}.

Definition t0930 : Z := 34200000000000.

Definition default_generator (tpm : Z) : SyntheticTickGenerator :=
  {| ticks_per_min := tpm; spread_mean := 15 # 10000; spread_vol := 3 # 10000;
     vol_noise := 4 # 10; trend_weight := 6 # 10; seed := 42 |}.

(** The stream state right after [np.random.seed(42)]. *)
Definition seeded : Z * nat := (42%Z, O).

Definition one_candle : list (Z * RawRow) := [(t0930, example_raw)].

Definition two_candles : list (Z * RawRow) :=
  [(t0930, example_raw); ((t0930 + 60000000000)%Z, example_raw)].

(** A row whose volume cell is NaN. *)
Definition incomplete_raw : RawRow :=
  {| raw_Open := Some 10; raw_High := Some (102 # 10);
     raw_Low := Some (995 # 100); raw_Close := Some (1015 # 100);
     raw_Volume := None |}.

(** * Ticker selection and trading dates

    The pure parts of [liquidity_analyzer.py], [ticker_selector.py] and
    [pipeline.py].  A frame is the list of its rows in index order (the
    default index [analyze_tickers] leaves after [reset_index]); a date is
    the number of days since 1970-01-01, whose order is the order of the
    [%Y-%m-%d] strings the source sorts. *)

(** One row of the frame [analyze_tickers] returns. *)
Record LiquidityRow : Type := {
  ticker : string;
  avg_volume : Q;
  avg_price : Q;
  liquidity : Q;
  percentile : Q;
  level : Q
}.

(** [x in l] on a list of strings, [Series.isin] on one cell. *)
Definition isin (x : string) (l : list string) : bool :=
  existsb (String.eqb x) l.

(** [df.loc[df['distance'].idxmin()]]: the first row at the minimal
    distance; no row on an empty frame. *)
Fixpoint idxmin (distance : LiquidityRow -> Q) (df : list LiquidityRow)
    : option LiquidityRow :=
  match df with
  | [] => None
  | r :: rest =>
      match idxmin distance rest with
      | Some r' => if Qltb (distance r') (distance r) then Some r' else Some r
      | None => Some r
      end
  end.

(** The loop [for target_percentile in percentiles] of
    [select_by_percentiles]; [idxmin] of an empty frame is a
    [ValueError]. *)
Fixpoint select_loop (percentiles : list Q) (df : list LiquidityRow)
    (selected : list string) : result (list string) :=
  match percentiles with
  | [] => Ok selected
  | target_percentile :: rest =>
      match idxmin (fun r => Qabs (percentile r - target_percentile)) df with
      | None => Raise ValueError
      | Some closest =>
          select_loop rest
            (filter (fun r => negb (String.eqb (ticker r) (ticker closest))) df)
            (selected ++ [ticker closest])
      end
  end.

(** [LiquidityAnalyzer.select_by_percentiles(liquidity_df, num_tickers,
    exclude_tickers)] *)
Definition select_by_percentiles (liquidity_df : list LiquidityRow)
    (num_tickers : Z) (exclude_tickers : option (list string))
    : result (list string) :=
  let df :=
    match exclude_tickers with
    | Some ((_ :: _) as ex) =>
        filter (fun r => negb (isin (ticker r) ex)) liquidity_df
    | _ => liquidity_df
    end in
  if (Z.of_nat (length df) <? num_tickers)%Z then Ok (map ticker df)
  else
    match linspace 10 90 num_tickers with
    | Raise e => Raise e
    | Ok percentiles => select_loop percentiles df []
    end.

(** [LiquidityAnalyzer.get_ticker_info(liquidity_df, ticker)]: the first
    row of that ticker, [None] when there is none. *)
Definition get_ticker_info (liquidity_df : list LiquidityRow) (t : string)
    : option LiquidityRow :=
  match filter (fun r => String.eqb (ticker r) t) liquidity_df with
  | [] => None
  | r :: _ => Some r
  end.

(** [MarketDataPipeline._select_tickers(liquidity_df)] for
    [self.num_tickers = num_tickers]. *)
Definition _select_tickers (num_tickers : Z)
    (liquidity_df : list LiquidityRow) : result (list string) :=
  match select_by_percentiles liquidity_df num_tickers (Some ["^BVSP"%string])
  with
  | Raise e => Raise e
  | Ok selected =>
      let ibov_info :=
        filter (fun r => String.eqb (ticker r) "^BVSP") liquidity_df in
      match ibov_info with
      | [] => Ok selected
      | _ => Ok ("^BVSP"%string :: selected)
      end
  end.

(** [list.remove(x)] where [x in l] has been tested: the first occurrence
    goes. *)
Fixpoint list_remove (x : string) (l : list string) : list string :=
  match l with
  | [] => []
  | y :: rest => if String.eqb y x then rest else y :: list_remove x rest
  end.

(** [IbovespaTickerFetcher.fetch_tickers(include_ibov)], as a function of
    the list [_load_from_csv] read. *)
Definition fetch_tickers (loaded : list string) (include_ibov : bool)
    : list string :=
  match loaded with
  | [] => []
  | _ =>
      if include_ibov && negb (isin "^BVSP" loaded)
      then "^BVSP"%string :: loaded
      else if negb include_ibov && isin "^BVSP" loaded
      then list_remove "^BVSP" loaded
      else loaded
  end.

(** [date.weekday()]: Monday is 0, Sunday 6; day 0 is a Thursday. *)
Definition weekday (d : Z) : Z := ((d + 3) mod 7)%Z.

(** [range(n)] *)
Definition range (n : Z) : list Z := map Z.of_nat (seq 0 (Z.to_nat n)).

(** The loop of [_get_date_range] over the remaining offsets [idx]. *)
Fixpoint date_loop (end_date days : Z) (idx : list Z) (dates : list Z)
    : list Z :=
  match idx with
  | [] => dates
  | i :: rest =>
      let check_date := (end_date - i)%Z in
      let dates :=
        if (weekday check_date <? 5)%Z then dates ++ [check_date] else dates in
      if (days <=? Z.of_nat (length dates))%Z then dates
      else date_loop end_date days rest dates
  end.

Fixpoint insert_date (d : Z) (l : list Z) : list Z :=
  match l with
  | [] => [d]
  | e :: rest => if (d <=? e)%Z then d :: l else e :: insert_date d rest
  end.

(** [sorted(dates)] *)
Fixpoint sorted (l : list Z) : list Z :=
  match l with
  | [] => []
  | d :: rest => insert_date d (sorted rest)
  end.

(** [MarketDataPipeline._get_date_range()] for [self.days = days], run on
    the day [now]. *)
Definition _get_date_range (now days : Z) : list Z :=
  sorted (date_loop now days (range (days * 2)) []).

(** A ranking of three stocks and the index. *)
Definition example_ranking : list LiquidityRow :=
  [{| ticker := "^BVSP"; avg_volume := 0; avg_price := 120000;
      liquidity := 0; percentile := 25; level := 1 |};
   {| ticker := "PETR4.SA"; avg_volume := 30000000; avg_price := 36;
      liquidity := 1080000000; percentile := 100; level := 4 |};
   {| ticker := "VALE3.SA"; avg_volume := 20000000; avg_price := 60;
      liquidity := 1200000000 # 2; percentile := 75; level := 3 |};
   {| ticker := "ABEV3.SA"; avg_volume := 10000000; avg_price := 12;
      liquidity := 120000000; percentile := 50; level := 2 |}].

(** The list an exclusion argument stands for: [None] and [[]] exclude
    nothing. *)
Definition excluded (exclude_tickers : option (list string)) : list string :=
  match exclude_tickers with Some l => l | None => [] end.

(** The rows of a frame whose ticker is not in [ex]. *)
Definition available (liquidity_df : list LiquidityRow) (ex : list string)
    : list LiquidityRow :=
  filter (fun r => negb (isin (ticker r) ex)) liquidity_df.

(** ** Further vocabulary *)

(** [b3_stats] is a non-empty dictionary whose ['totneg'] entry is [T]. *)
Definition session_statistic (b3_stats : option Dict) (T : Z) : Prop :=
  exists e d, b3_stats = Some (e :: d) /\ dict_get (e :: d) "totneg" = Some T.

(** Two configurations that agree on everything but the tick count and the
    stored seed. *)
Definition same_but_tick_count (a b : SyntheticTickGenerator) : Prop :=
  spread_mean a = spread_mean b /\ spread_vol a = spread_vol b /\
  vol_noise a = vol_noise b /\ trend_weight a = trend_weight b.

(** * Properties *)

Section Properties.

Context {np : NumPy}.

(** ** The monad *)

Lemma bind_Ok {A B} (m : M A) (f : A -> M B) s b s' :
  bind m f s = Ok (b, s') ->
  exists a s1, m s = Ok (a, s1) /\ f a s1 = Ok (b, s').
Proof.
  unfold bind. destruct (m s) as [[a s1]|e]; [|discriminate].
  intros H. exists a, s1. split; [reflexivity|exact H].
Qed.

Lemma bind_run {A B} (m : M A) (f : A -> M B) s a s1 :
  m s = Ok (a, s1) -> bind m f s = f a s1.
Proof. unfold bind. intros ->. reflexivity. Qed.

Lemma bind_raise {A B} (m : M A) (f : A -> M B) s e :
  m s = Raise e -> bind m f s = Raise e.
Proof. unfold bind. intros ->. reflexivity. Qed.

Lemma lift_Ok {A} (r : result A) s a s' :
  lift r s = Ok (a, s') -> r = Ok a /\ s' = s.
Proof.
  unfold lift. destruct r; [|discriminate].
  intros H. injection H as -> ->. split; reflexivity.
Qed.

Lemma ret_Ok {A} (x : A) s a s' : ret x s = Ok (a, s') -> a = x /\ s' = s.
Proof. unfold ret. intros H. injection H as -> ->. split; reflexivity. Qed.

(** ** Comparisons and rounding *)

Lemma Qltb_true x y : Qltb x y = true <-> x < y.
Proof.
  unfold Qltb. rewrite negb_true_iff.
  destruct (Qle_bool y x) eqn:E.
  - apply Qle_bool_iff in E. split; [discriminate|]. intros H.
    exfalso. apply (Qlt_not_le _ _ H E).
  - split; [|reflexivity]. intros _. apply Qnot_le_lt. intros H.
    apply Qle_bool_iff in H. congruence.
Qed.

Lemma Qltb_false x y : Qltb x y = false <-> y <= x.
Proof.
  unfold Qltb. rewrite negb_false_iff. apply Qle_bool_iff.
Qed.

Lemma rint_floor x : (Qfloor x <= rint x <= Qfloor x + 1)%Z.
Proof.
  unfold rint.
  destruct (Qltb _ _); [lia|]. destruct (Qltb _ _); [lia|].
  destruct (Z.even _); lia.
Qed.

Lemma rint_mono x y : x <= y -> (rint x <= rint y)%Z.
Proof.
  intros Hxy.
  pose proof (Qfloor_resp_le _ _ Hxy) as Hf.
  destruct (Z.eq_dec (Qfloor x) (Qfloor y)) as [E|N].
  - unfold rint. rewrite <- E.
    destruct (Qltb (x - inject_Z (Qfloor x)) (1 # 2)) eqn:X1.
    + destruct (Qltb (y - _) _); [lia|].
      destruct (Qltb _ (y - _)); [lia|]. destruct (Z.even _); lia.
    + apply Qltb_false in X1.
      destruct (Qltb (y - inject_Z (Qfloor x)) (1 # 2)) eqn:Y1.
      * apply Qltb_true in Y1. exfalso. lra.
      * destruct (Qltb (1 # 2) (x - inject_Z (Qfloor x))) eqn:X2.
        -- apply Qltb_true in X2.
           assert (Qltb (1 # 2) (y - inject_Z (Qfloor x)) = true) as ->
             by (apply Qltb_true; lra).
           lia.
        -- destruct (Qltb (1 # 2) (y - _)); destruct (Z.even _); lia.
  - pose proof (rint_floor x). pose proof (rint_floor y). lia.
Qed.

Lemma round4_mono x y : x <= y -> round4 x <= round4 y.
Proof.
  intros H. unfold round4.
  assert (rint (x * 10000) <= rint (y * 10000))%Z as Hr
    by (apply rint_mono; lra).
  rewrite Zle_Qle in Hr. unfold Qdiv.
  apply Qmult_le_compat_r; [exact Hr|]. discriminate.
Qed.

Lemma clip_bounds x lo hi : lo <= hi -> lo <= clip x lo hi <= hi.
Proof.
  intros H. unfold clip. split.
  - apply Q.min_glb; [apply Q.le_max_r|exact H].
  - apply Q.le_min_r.
Qed.

(** ** Lengths of the drawn and interpolated arrays *)

Lemma zip_with_length {A B C} (f : A -> B -> C) l l' :
  length (zip_with f l l') = Nat.min (length l) (length l').
Proof.
  revert l'. induction l as [|a l IH]; intros [|b l']; simpl; auto.
Qed.

Lemma gauss_n_returns n s :
  exists zs s', gauss_n n s = Ok (zs, s') /\ length zs = n.
Proof.
  revert s. induction n as [|n IH]; intros s; simpl.
  - exists [], s. split; reflexivity.
  - unfold bind at 1. unfold gauss at 1.
    destruct (legacy_gauss s) as [z s1].
    destruct (IH s1) as (zs & s2 & E & L).
    unfold bind. rewrite E. exists (z :: zs), s2.
    split; [reflexivity|simpl; congruence].
Qed.

Lemma normal_returns loc scale size s :
  0 <= scale -> (0 <= size)%Z ->
  exists xs s', normal loc scale size s = Ok (xs, s') /\
                length xs = Z.to_nat size.
Proof.
  intros Hs Hn. unfold normal.
  assert (Qltb scale 0 = false) as -> by (apply Qltb_false; exact Hs).
  assert ((size <? 0)%Z = false) as -> by (apply Z.ltb_ge; exact Hn).
  destruct (gauss_n_returns (Z.to_nat size) s) as (zs & s' & E & L).
  unfold bind. rewrite E. eexists _, s'. split; [reflexivity|].
  rewrite length_map. exact L.
Qed.

Lemma normal_raises loc scale size s :
  scale < 0 -> normal loc scale size s = Raise ValueError.
Proof.
  intros H. unfold normal.
  assert (Qltb scale 0 = true) as -> by (apply Qltb_true; exact H).
  reflexivity.
Qed.

Lemma linspace_returns start stop num :
  (0 <= num)%Z ->
  exists xs, linspace start stop num = Ok xs /\
             length xs = Z.to_nat num.
Proof.
  intros H. unfold linspace.
  assert ((num <? 0)%Z = false) as -> by (apply Z.ltb_ge; exact H).
  eexists. split; [reflexivity|]. rewrite length_map, length_seq. reflexivity.
Qed.

Lemma linspace_raises start stop num :
  (num < 0)%Z -> linspace start stop num = Raise ValueError.
Proof.
  intros H. unfold linspace.
  assert ((num <? 0)%Z = true) as -> by (apply Z.ltb_lt; exact H).
  reflexivity.
Qed.

(** ** The mid-price path *)

Lemma _generate_midpath_returns self row num_ticks s :
  Low row <= High row -> (0 <= num_ticks)%Z ->
  exists mids s',
    _generate_midpath self row num_ticks s = Ok (mids, s') /\
    length mids = Z.to_nat num_ticks /\
    Forall (fun m => Low row <= m <= High row) mids.
Proof.
  intros Hlh Hn. unfold _generate_midpath.
  destruct (linspace_returns (Open row) (Close row) num_ticks Hn)
    as (path & Ep & Lp).
  destruct (linspace_returns 0 1 num_ticks Hn) as (ramp & Er & Lr).
  assert (0 <= (High row - Low row) / 200) as Hscale.
  { apply Qle_shift_div_l; [reflexivity|]. lra. }
  destruct (normal_returns 0 _ num_ticks s Hscale Hn) as (noise & s' & En & Ln).
  exists (map (fun m => clip m (Low row) (High row))
            (zip_with Qplus
               (zip_with Qplus path
                  (map (fun r =>
                          trend_weight self * (Close row - Open row) * r) ramp))
               noise)), s'.
  split; [|split].
  - unfold bind, lift. rewrite Ep, En, Er. reflexivity.
  - rewrite length_map, !zip_with_length, length_map. lia.
  - apply Forall_forall. intros m Hm. apply in_map_iff in Hm.
    destruct Hm as (x & <- & _). apply clip_bounds. exact Hlh.
Qed.

(** ** Volume allocation *)

Lemma trunc_nonneg x : 0 <= x -> trunc x = Qfloor x.
Proof.
  destruct x as [n d]. unfold Qle, trunc, Qfloor. simpl. intros H.
  apply Z.quot_div_nonneg; lia.
Qed.

Lemma trunc_bounds x :
  0 <= x -> (0 <= trunc x)%Z /\ inject_Z (trunc x) <= x /\
            x < inject_Z (trunc x) + 1.
Proof.
  intros H. rewrite (trunc_nonneg x H). split; [|split].
  - change 0%Z with (Qfloor 0). apply Qfloor_resp_le. exact H.
  - apply Qfloor_le.
  - pose proof (Qlt_floor x) as L. rewrite inject_Z_plus in L. exact L.
Qed.

Lemma Qsum_abs_nonneg l : 0 <= Qsum (map Qabs l).
Proof.
  induction l as [|x l IH]; simpl; [lra|].
  pose proof (Qabs_nonneg x). lra.
Qed.

Lemma Qsum_abs_zero l :
  Qsum (map Qabs l) == 0 <-> Forall (fun d => d == 0) l.
Proof.
  induction l as [|x l IH]; simpl.
  - split; [constructor|reflexivity].
  - pose proof (Qabs_nonneg x) as Hx. pose proof (Qsum_abs_nonneg l) as Hl.
    split.
    + intros H. constructor.
      * assert (Qabs x == 0) as Ex by lra. revert Ex.
        apply Qabs_case; intros; lra.
      * apply IH. lra.
    + intros H. inversion H as [|? ? Ex El]; subst.
      apply IH in El. rewrite Ex in *. rewrite El.
      reflexivity.
Qed.


Lemma true_divide_finite x y :
  ~ y == 0 -> true_divide x y = Some (x / y).
Proof.
  intros H. unfold true_divide.
  destruct (Qeq_bool y 0) eqn:E; [|reflexivity].
  apply Qeq_bool_iff in E. contradiction.
Qed.

Lemma true_divide_zero x y : y == 0 -> true_divide x y = None.
Proof.
  intros H. unfold true_divide.
  apply Qeq_bool_iff in H. rewrite H. reflexivity.
Qed.

(** What [_allocate_volumes] returns, in terms of the deviates it draws. *)
Lemma _allocate_volumes_run self V K s draws s' :
  normal 1 (vol_noise self) K s = Ok (draws, s') ->
  let total := Qsum (map Qabs draws) in
  _allocate_volumes self V K s =
    Ok (map (fun w => astype_int
                        (option_map (fun w => w * V) (true_divide w total)))
            (map Qabs draws), s').
Proof.
  intros E. unfold _allocate_volumes, bind. rewrite E.
  unfold ret. rewrite map_map. reflexivity.
Qed.

Lemma _allocate_volumes_finite self V K s draws s' :
  normal 1 (vol_noise self) K s = Ok (draws, s') ->
  ~ Qsum (map Qabs draws) == 0 ->
  _allocate_volumes self V K s =
    Ok (map Some (map (fun w => trunc (w / Qsum (map Qabs draws) * V))
                      (map Qabs draws)), s').
Proof.
  intros E H. rewrite (_allocate_volumes_run self V K s draws s' E).
  cbn zeta. f_equal. f_equal.
  revert H. generalize (Qsum (map Qabs draws)). intros t Ht.
  generalize (map Qabs draws). intros ws.
  rewrite map_map. apply map_ext. intros w.
  rewrite (true_divide_finite _ _ Ht). reflexivity.
Qed.

Lemma _allocate_volumes_nan self V K s draws s' :
  normal 1 (vol_noise self) K s = Ok (draws, s') ->
  Qsum (map Qabs draws) == 0 ->
  _allocate_volumes self V K s = Ok (repeat None (length draws), s').
Proof.
  intros E H. rewrite (_allocate_volumes_run self V K s draws s' E).
  cbn zeta. f_equal. f_equal. rewrite <- (length_map Qabs draws).
  revert H. generalize (Qsum (map Qabs draws)). intros t Ht.
  generalize (map Qabs draws). intros ws.
  induction ws as [|w l IH]; simpl; [reflexivity|].
  rewrite (true_divide_zero _ _ Ht). simpl. f_equal. exact IH.
Qed.

Lemma _allocate_volumes_returns self V K s :
  0 <= vol_noise self -> (0 <= K)%Z ->
  exists out s', _allocate_volumes self V K s = Ok (out, s') /\
                 length out = Z.to_nat K.
Proof.
  intros Hv HK.
  destruct (normal_returns 1 _ K s Hv HK) as (draws & s' & E & L).
  rewrite (_allocate_volumes_run self V K s draws s' E). cbn zeta.
  eexists _, s'. split; [reflexivity|]. rewrite !length_map. exact L.
Qed.

(** ** One tick *)

Lemma _generate_spread_Ok self mid s b a s' :
  _generate_spread self mid s = Ok ((b, a), s') ->
  0 <= spread_vol self /\
  b = mid - mid * spread_fraction self s / 2 /\
  a = mid + mid * spread_fraction self s / 2 /\
  s' = snd (legacy_gauss s).
Proof.
  unfold _generate_spread, normal1, spread_fraction, bind, gauss, ret, throw.
  destruct (Qltb (spread_vol self) 0) eqn:E; [discriminate|].
  apply Qltb_false in E. destruct (legacy_gauss s) as [z s1]. simpl.
  intros H. injection H as <- <- <-. repeat split. exact E.
Qed.

Lemma _generate_spread_returns self mid s :
  0 <= spread_vol self ->
  exists q, _generate_spread self mid s = Ok (q, snd (legacy_gauss s)).
Proof.
  intros H. unfold _generate_spread, normal1, bind, gauss, ret.
  assert (Qltb (spread_vol self) 0 = false) as -> by (apply Qltb_false; exact H).
  destruct (legacy_gauss s) as [z s1]. simpl. eexists. reflexivity.
Qed.

Lemma tick_body_Ok self ts row dt mids vols i s t s' :
  tick_body self ts row dt mids vols i s = Ok (t, s') ->
  exists mid u,
    nth_error mids i = Some mid /\
    nth_error vols i = Some (volume t) /\
    timestamp t = tick_time ts i dt /\
    bid t = round4 (mid - mid * spread_fraction self s / 2) /\
    ask t = round4 (mid + mid * spread_fraction self s / 2) /\
    trade_price t =
      round4 (match side t with
              | buy => mid + mid * spread_fraction self s / 2
              | sell => mid - mid * spread_fraction self s / 2
              end * ((999 # 1000) + ((1001 # 1000) - (999 # 1000)) * u)).
Proof.
  unfold tick_body. intros H.
  apply bind_Ok in H. destruct H as (mid & s1 & Hm & H).
  apply lift_Ok in Hm. destruct Hm as [Hm ->].
  unfold getitem in Hm. destruct (nth_error mids i) as [m|] eqn:Em;
    [|discriminate]. injection Hm as ->.
  apply bind_Ok in H. destruct H as ([b a] & s2 & Hs & H).
  apply _generate_spread_Ok in Hs. destruct Hs as (_ & -> & -> & ->).
  apply bind_Ok in H. destruct H as (sd & s3 & Hc & H).
  apply bind_Ok in H. destruct H as (tp & s4 & Ht & H).
  apply bind_Ok in H. destruct H as (vol & s5 & Hv & H).
  apply lift_Ok in Hv. destruct Hv as [Hv ->].
  unfold getitem in Hv. destruct (nth_error vols i) as [v|] eqn:Ev;
    [|discriminate]. injection Hv as ->.
  apply ret_Ok in H. destruct H as [-> ->].
  exists mid, (fst (random_sample s3)). cbn [timestamp bid ask trade_price volume side].
  repeat split; try reflexivity.
  destruct sd; unfold uniform, bind, sample, ret in Ht;
    destruct (random_sample s3) as [u s6]; injection Ht as <- _; reflexivity.
Qed.

Lemma tick_body_returns self ts row dt mids vols i s :
  0 <= spread_vol self ->
  (i < length mids)%nat -> (i < length vols)%nat ->
  exists t s', tick_body self ts row dt mids vols i s = Ok (t, s').
Proof.
  intros Hv Hm Hl. unfold tick_body.
  destruct (nth_error mids i) as [mid|] eqn:Em;
    [|apply nth_error_None in Em; lia].
  destruct (nth_error vols i) as [vol|] eqn:Ev;
    [|apply nth_error_None in Ev; lia].
  destruct (_generate_spread_returns self mid s Hv) as ([b a] & Es).
  unfold bind at 1. unfold lift at 1, getitem. rewrite Em.
  unfold bind at 1. rewrite Es.
  unfold bind at 1. unfold choice_side at 1, bind at 1, sample at 1.
  destruct (random_sample (snd (legacy_gauss s))) as [u1 s3]. unfold ret at 1.
  unfold bind at 1.
  destruct (Qltb u1 _); unfold uniform, bind at 1, bind at 1, sample;
    destruct (random_sample s3) as [u2 s4]; unfold ret at 1, ret at 1;
    unfold bind, lift; rewrite Ev; unfold ret; eexists _, _; reflexivity.
Qed.

(** ** The ticks of one candle *)

Lemma tick_loop_Ok self ts row dt mids vols idx s ticks s' :
  tick_loop self ts row dt mids vols idx s = Ok (ticks, s') ->
  Forall2 (fun i t => exists s1 s2,
             tick_body self ts row dt mids vols i s1 = Ok (t, s2))
          idx ticks.
Proof.
  revert s ticks s'. induction idx as [|i idx IH]; intros s ticks s' H.
  - apply ret_Ok in H. destruct H as [-> _]. constructor.
  - cbn [tick_loop] in H.
    apply bind_Ok in H. destruct H as (t & s1 & Ht & H).
    apply bind_Ok in H. destruct H as (more & s2 & Hmore & H).
    apply ret_Ok in H. destruct H as [-> ->].
    constructor; [exists s, s1; exact Ht|]. exact (IH _ _ _ Hmore).
Qed.

Lemma tick_loop_returns self ts row dt mids vols idx s :
  0 <= spread_vol self ->
  Forall (fun i => (i < length mids)%nat /\
                   (i < length vols)%nat) idx ->
  exists ticks s', tick_loop self ts row dt mids vols idx s = Ok (ticks, s').
Proof.
  intros Hv Hidx. revert s. induction Hidx as [|i idx [Hm Hl] _ IH]; intros s.
  - exists [], s. reflexivity.
  - destruct (tick_body_returns self ts row dt mids vols i s Hv Hm Hl)
      as (t & s1 & Et).
    destruct (IH s1) as (more & s2 & Emore).
    exists (t :: more), s2. cbn [tick_loop].
    rewrite (bind_run _ _ _ _ _ Et), (bind_run _ _ _ _ _ Emore). reflexivity.
Qed.

Lemma _generate_midpath_Ok self row n s mids s' :
  _generate_midpath self row n s = Ok (mids, s') ->
  (0 <= n)%Z /\ Low row <= High row /\
  length mids = Z.to_nat n /\
  Forall (fun m => Low row <= m <= High row) mids.
Proof.
  intros H.
  destruct (Z_lt_le_dec n 0) as [Hn|Hn].
  { unfold _generate_midpath in H.
    rewrite (bind_raise _ _ _ ValueError) in H; [discriminate|].
    unfold lift. rewrite (linspace_raises _ _ _ Hn). reflexivity. }
  destruct (Qlt_le_dec (High row) (Low row)) as [Hlh|Hlh].
  { unfold _generate_midpath in H.
    destruct (linspace_returns (Open row) (Close row) n Hn) as (path & Ep & _).
    rewrite (bind_run _ _ s path s) in H by (unfold lift; rewrite Ep; reflexivity).
    rewrite (bind_raise _ _ _ ValueError) in H; [discriminate|].
    apply normal_raises.
    apply Qlt_shift_div_r; [reflexivity|]. lra. }
  destruct (_generate_midpath_returns self row n s Hlh Hn)
    as (mids' & s1 & E & L & B).
  rewrite E in H. injection H as <- <-. repeat split; assumption.
Qed.

Lemma int_true_div_Ok a b q :
  int_true_div a b = Ok q -> b <> 0%Z /\ q = inject_Z a / inject_Z b.
Proof.
  unfold int_true_div. destruct (Z.eqb_spec b 0); [discriminate|].
  intros H. injection H as <-. split; [assumption|reflexivity].
Qed.

Lemma candle_ticks_Ok self ts row n s ticks s' :
  candle_ticks self ts row n s = Ok (ticks, s') ->
  (1 <= n)%Z /\ Low row <= High row /\
  exists mids vols,
    Forall (fun m => Low row <= m <= High row) mids /\
    Forall2 (fun i t => exists s1 s2,
               tick_body self ts row (timedelta (60 / inject_Z n)) mids vols i s1
               = Ok (t, s2))
            (seq 0 (Z.to_nat n)) ticks.
Proof.
  unfold candle_ticks. intros H.
  apply bind_Ok in H. destruct H as (mids & s1 & Hm & H).
  apply bind_Ok in H. destruct H as (vols & s2 & Hv & H).
  apply bind_Ok in H. destruct H as (secs & s3 & Hd & H).
  apply lift_Ok in Hd. destruct Hd as [Hd ->].
  apply int_true_div_Ok in Hd. destruct Hd as [Hn0 ->].
  apply _generate_midpath_Ok in Hm. destruct Hm as (Hn & Hlh & _ & Hb).
  split; [lia|]. split; [exact Hlh|].
  exists mids, vols. split; [exact Hb|].
  exact (tick_loop_Ok _ _ _ _ _ _ _ _ _ _ H).
Qed.

Lemma Forall2_length_eq {A B} (R : A -> B -> Prop) l l' :
  Forall2 R l l' -> length l = length l'.
Proof. induction 1; simpl; congruence. Qed.

Lemma candle_ticks_length self ts row n s ticks s' :
  candle_ticks self ts row n s = Ok (ticks, s') ->
  length ticks = Z.to_nat n.
Proof.
  intros H. apply candle_ticks_Ok in H.
  destruct H as (_ & _ & mids & vols & _ & F).
  apply Forall2_length_eq in F. rewrite length_seq in F. congruence.
Qed.

Lemma candle_ticks_times self ts row n s ticks s' :
  candle_ticks self ts row n s = Ok (ticks, s') ->
  map timestamp ticks = candle_times ts n.
Proof.
  intros H. apply candle_ticks_Ok in H.
  destruct H as (_ & _ & mids & vols & _ & F). unfold candle_times.
  induction F as [|i t idx ticks (s1 & s2 & Hb) _ IH]; [reflexivity|].
  apply tick_body_Ok in Hb. destruct Hb as (mid & u & _ & _ & Ht & _).
  simpl. rewrite Ht, IH. reflexivity.
Qed.

Lemma candle_ticks_returns self ts row n s :
  0 <= spread_vol self -> 0 <= vol_noise self ->
  Low row <= High row -> (1 <= n)%Z ->
  exists ticks s', candle_ticks self ts row n s = Ok (ticks, s').
Proof.
  intros Hsv Hvn Hlh Hn. unfold candle_ticks.
  destruct (_generate_midpath_returns self row n s Hlh ltac:(lia))
    as (mids & s1 & Em & Lm & _).
  destruct (_allocate_volumes_returns self (Volume row) n s1 Hvn ltac:(lia))
    as (vols & s2 & Ev & Lv).
  rewrite (bind_run _ _ _ _ _ Em), (bind_run _ _ _ _ _ Ev).
  unfold bind at 1, lift at 1, int_true_div.
  destruct (Z.eqb_spec n 0); [lia|].
  apply tick_loop_returns; [exact Hsv|].
  apply Forall_forall. intros i Hi. apply in_seq in Hi. lia.
Qed.

(** ** The loop over the candles *)

Lemma pick_num_ticks_None self k :
  pick_num_ticks self None k = Ok (ticks_per_min self).
Proof. reflexivity. Qed.

Lemma pick_num_ticks_Some self d k :
  (k < length d)%nat ->
  exists n, pick_num_ticks self (Some d) k = Ok n /\ (1 <= n)%Z.
Proof.
  intros H. unfold pick_num_ticks, getitem.
  destruct (nth_error d k) as [x|] eqn:E; [|apply nth_error_None in E; lia].
  eexists. split; [reflexivity|]. lia.
Qed.

Lemma candle_loop_Ok self dist k rows s all s' :
  candle_loop self dist k rows s = Ok (all, s') ->
  exists parts : list (Z * list Tick),
    all = concat (map snd parts) /\
    Forall2 (fun r p => exists k' s1 s2,
               pick_num_ticks self dist k' = Ok (fst p) /\
               candle_ticks self (fst r) (snd r) (fst p) s1 = Ok (snd p, s2))
            rows parts.
Proof.
  revert k s all s'. induction rows as [|[ts row] rows IH]; intros k s all s' H.
  - apply ret_Ok in H. destruct H as [-> _]. exists []. split; constructor.
  - cbn [candle_loop] in H.
    apply bind_Ok in H. destruct H as (n & s1 & Hn & H).
    apply lift_Ok in Hn. destruct Hn as [Hn ->].
    apply bind_Ok in H. destruct H as (ticks & s2 & Ht & H).
    apply bind_Ok in H. destruct H as (more & s3 & Hmore & H).
    apply ret_Ok in H. destruct H as [-> ->].
    destruct (IH _ _ _ _ Hmore) as (parts & -> & F).
    exists ((n, ticks) :: parts). split; [reflexivity|].
    constructor; [|exact F]. exists k, s, s2. split; assumption.
Qed.

Lemma candle_loop_returns self dist k rows s :
  0 <= spread_vol self -> 0 <= vol_noise self -> well_formed rows ->
  (forall k', (k <= k' < k + length rows)%nat ->
              exists n, pick_num_ticks self dist k' = Ok n /\ (1 <= n)%Z) ->
  exists all s', candle_loop self dist k rows s = Ok (all, s').
Proof.
  intros Hsv Hvn Hwf. revert k s.
  induction Hwf as [|[ts row] rows Hlh _ IH]; intros k s Hpick.
  - exists [], s. reflexivity.
  - destruct (Hpick k) as (n & En & Hn); [simpl; lia|].
    destruct (candle_ticks_returns self ts row n s Hsv Hvn Hlh Hn)
      as (ticks & s1 & Et).
    destruct (IH (S k) s1) as (more & s2 & Emore).
    { intros k' Hk'. apply Hpick. simpl. lia. }
    exists (ticks ++ more), s2. cbn [candle_loop].
    rewrite (bind_run _ _ s n s) by (unfold lift; rewrite En; reflexivity).
    rewrite (bind_run _ _ _ _ _ Et), (bind_run _ _ _ _ _ Emore). reflexivity.
Qed.

(** ** The schedule *)

Lemma schedule_no_statistic n b3_stats s :
  no_session_statistic b3_stats -> schedule n b3_stats s = Ok (None, s).
Proof.
  unfold no_session_statistic, schedule.
  destruct b3_stats as [[|e d]|]; try reflexivity.
  intros ->. reflexivity.
Qed.

Lemma _calculate_intraday_distribution_returns n total s :
  exists d s', _calculate_intraday_distribution n total s = Ok (d, s') /\
               length d = n.
Proof.
  unfold _calculate_intraday_distribution, _u_shape_curve.
  destruct (normal_returns 1 (1 # 10)
              (Z.of_nat (length (map Z.of_nat (seq 0 n)))) s)
    as (noise & s' & E & L); [discriminate|lia|].
  rewrite Nat2Z.id, length_map, length_seq in L.
  eexists _, s'. unfold bind at 1. unfold bind at 1. rewrite E.
  split; [reflexivity|].
  rewrite !length_map, zip_with_length, length_map, zip_with_length,
    !length_map, length_seq. lia.
Qed.

Lemma schedule_returns n b3_stats s :
  exists dist s', schedule n b3_stats s = Ok (dist, s') /\
    match dist with
    | Some d => length d = n
    | None => no_session_statistic b3_stats
    end.
Proof.
  unfold schedule, no_session_statistic.
  destruct b3_stats as [[|e d]|]; try (exists None, s; split; [reflexivity|exact I]).
  destruct (dict_get (e :: d) "totneg") as [t|].
  - destruct (_calculate_intraday_distribution_returns n t s)
      as (dd & s' & Ed & L).
    exists (Some dd), s'. rewrite (bind_run _ _ _ _ _ Ed).
    split; [reflexivity|exact L].
  - exists None, s. split; reflexivity.
Qed.

(** ** Sorting and the frame *)

Lemma insert_by_time_Forall (P : Tick -> Prop) t l :
  P t -> Forall P l -> Forall P (insert_by_time t l).
Proof.
  intros Ht Hl. induction Hl as [|u l Hu Hl IH]; simpl.
  - constructor; [exact Ht|constructor].
  - destruct (timestamp t <=? timestamp u)%Z.
    + constructor; [exact Ht|]. constructor; assumption.
    + constructor; assumption.
Qed.

Lemma sort_by_time_Forall (P : Tick -> Prop) l :
  Forall P l -> Forall P (sort_by_time l).
Proof.
  induction 1 as [|t l Ht Hl IH]; simpl; [constructor|].
  apply insert_by_time_Forall; assumption.
Qed.

Lemma insert_by_time_length t l :
  length (insert_by_time t l) = S (length l).
Proof.
  induction l as [|u l IH]; simpl; [reflexivity|].
  destruct (timestamp t <=? timestamp u)%Z; simpl; congruence.
Qed.

Lemma sort_by_time_length l : length (sort_by_time l) = length l.
Proof.
  induction l as [|t l IH]; simpl; [reflexivity|].
  rewrite insert_by_time_length. congruence.
Qed.

Lemma sort_values_DataFrame all :
  sort_values (DataFrame all) "timestamp" =
  match all with
  | [] => Raise KeyError
  | _ => Ok {| columns := ["timestamp"; "bid"; "ask"; "trade_price";
                           "volume"; "side"]%string;
               records := sort_by_time all |}
  end.
Proof. destruct all; reflexivity. Qed.

Lemma generate_ticks_Ok self df b3_stats s out s' :
  generate_ticks self df b3_stats s = Ok (out, s') ->
  exists dist s1 all,
    schedule (length (dropna df)) b3_stats s = Ok (dist, s1) /\
    candle_loop self dist 0 (dropna df) s1 = Ok (all, s') /\
    all <> [] /\ records out = sort_by_time all.
Proof.
  unfold generate_ticks. intros H.
  apply bind_Ok in H. destruct H as (dist & s1 & Hs & H).
  apply bind_Ok in H. destruct H as (all & s2 & Hl & H).
  apply lift_Ok in H. destruct H as [H ->].
  rewrite sort_values_DataFrame in H.
  exists dist, s1, all. split; [exact Hs|]. split; [exact Hl|].
  destruct all; [discriminate|]. injection H as <-.
  split; [discriminate|reflexivity].
Qed.

Lemma candle_loop_Forall (P : Tick -> Prop) self dist k rows s all s' :
  (forall ts row n s1 ticks s2,
     In (ts, row) rows ->
     candle_ticks self ts row n s1 = Ok (ticks, s2) -> Forall P ticks) ->
  candle_loop self dist k rows s = Ok (all, s') -> Forall P all.
Proof.
  intros HP H. apply candle_loop_Ok in H. destruct H as (parts & -> & F).
  induction F as [|[ts row] [n ticks] rows parts (k' & s1 & s2 & _ & Hc) _ IH];
    simpl; [constructor|].
  apply Forall_app. split.
  - apply (HP ts row n s1 ticks s2); [left; reflexivity|exact Hc].
  - apply IH. intros ts' row' n' s1' ticks' s2' Hin.
    apply HP. right. exact Hin.
Qed.

(** Whatever holds of every tick the loop body can build from a mid price
    inside its candle holds of every record of the returned frame. *)
Lemma generate_ticks_Forall (P : Tick -> Prop) self df b3_stats s out s' :
  (forall ts row dt mids vols i s1 t s2,
     In (ts, row) (dropna df) ->
     Forall (fun m => Low row <= m <= High row) mids ->
     tick_body self ts row dt mids vols i s1 = Ok (t, s2) -> P t) ->
  generate_ticks self df b3_stats s = Ok (out, s') ->
  Forall P (records out).
Proof.
  intros HP H. apply generate_ticks_Ok in H.
  destruct H as (dist & s1 & all & _ & Hl & _ & ->).
  apply sort_by_time_Forall.
  refine (candle_loop_Forall P _ _ _ _ _ _ _ _ Hl).
  intros ts row n s2 ticks s3 Hin Hc. apply candle_ticks_Ok in Hc.
  destruct Hc as (_ & _ & mids & vols & Hb & F).
  induction F as [|i t idx ticks' (s4 & s5 & Ht) _ IH]; constructor.
  - exact (HP _ _ _ _ _ _ _ _ _ Hin Hb Ht).
  - exact IH.
Qed.

Lemma candle_loop_length self k rows s all s' :
  candle_loop self None k rows s = Ok (all, s') ->
  length all = (length rows * Z.to_nat (ticks_per_min self))%nat /\
  (rows <> [] -> (1 <= ticks_per_min self)%Z).
Proof.
  intros H. apply candle_loop_Ok in H. destruct H as (parts & -> & F).
  induction F as [|[ts row] [n ticks] rows parts (k' & s1 & s2 & Hp & Hc) _ IH].
  - split; [reflexivity|congruence].
  - rewrite pick_num_ticks_None in Hp. injection Hp as Hp. simpl in Hp, Hc.
    subst n. destruct IH as [IH _]. split.
    + simpl. rewrite length_app, IH.
      rewrite (candle_ticks_length _ _ _ _ _ _ _ Hc). reflexivity.
    + intros _. apply candle_ticks_Ok in Hc. tauto.
Qed.

Lemma candle_loop_nonempty self dist k rows s all s' :
  rows <> [] -> candle_loop self dist k rows s = Ok (all, s') -> all <> [].
Proof.
  intros Hne H. apply candle_loop_Ok in H. destruct H as (parts & -> & F).
  destruct F as [|[ts row] [n ticks] rows parts (k' & s1 & s2 & _ & Hc) _];
    [congruence|].
  simpl in Hc. pose proof (candle_ticks_length _ _ _ _ _ _ _ Hc) as L.
  apply candle_ticks_Ok in Hc. destruct Hc as (Hn & _).
  simpl. destruct ticks as [|t ticks]; [simpl in L; lia|discriminate].
Qed.

Lemma generate_ticks_returns self df b3_stats s :
  0 <= spread_vol self -> 0 <= vol_noise self ->
  (no_session_statistic b3_stats -> (1 <= ticks_per_min self)%Z) ->
  well_formed (dropna df) -> dropna df <> [] ->
  exists out s', generate_ticks self df b3_stats s = Ok (out, s').
Proof.
  intros Hsv Hvn Htpm Hwf Hne. unfold generate_ticks.
  destruct (schedule_returns (length (dropna df)) b3_stats s)
    as (dist & s1 & Es & Hd).
  destruct (candle_loop_returns self dist 0 (dropna df) s1 Hsv Hvn Hwf)
    as (all & s2 & El).
  { intros k' Hk'. destruct dist as [d|].
    - apply pick_num_ticks_Some. lia.
    - exists (ticks_per_min self). split; [reflexivity|]. exact (Htpm Hd). }
  rewrite (bind_run _ _ _ _ _ Es), (bind_run _ _ _ _ _ El).
  rewrite sort_values_DataFrame.
  pose proof (candle_loop_nonempty _ _ _ _ _ _ _ Hne El) as Hall.
  destruct all; [congruence|]. unfold lift. eexists _, _. reflexivity.
Qed.

(** * The claims *)

(** C6.  For every candle with low <= high and every tick count K >= 1,
    [_generate_midpath] returns K mid prices and every one of them lies in
    [low, high], whatever the stream yields. *)
Theorem midpath_clipped_into_candle self row K s :
  Low row <= High row -> (1 <= K)%Z ->
  exists mids s',
    _generate_midpath self row K s = Ok (mids, s') /\
    length mids = Z.to_nat K /\
    Forall (fun m => Low row <= m <= High row) mids.
Proof.
  intros Hlh HK. apply _generate_midpath_returns; [exact Hlh|lia].
Qed.

Lemma nonzero_draw_total draws :
  Exists (fun d => ~ d == 0) draws -> 0 < Qsum (map Qabs draws).
Proof.
  intros Hex. pose proof (Qsum_abs_nonneg draws) as Hn.
  destruct (Qeq_dec (Qsum (map Qabs draws)) 0) as [E|N].
  - apply Qsum_abs_zero in E. apply Exists_exists in Hex.
    destruct Hex as (d & Hin & Hd). rewrite Forall_forall in E.
    elim Hd. exact (E d Hin).
  - apply Qle_lteq in Hn. destruct Hn as [Hn|Hn]; [exact Hn|].
    elim N. symmetry. exact Hn.
Qed.


(** C10 (amended).  The divisor of [_allocate_volumes] is the sum of the K
    drawn absolute weights.  It is positive, and all K returned values are
    finite, whenever at least one drawn weight is nonzero; when every drawn
    weight is zero the divisor is zero and every returned entry is a NaN
    cast. *)
Theorem allocation_divisor self V K s :
  0 <= vol_noise self -> (1 <= K)%Z ->
  exists draws out s',
    normal 1 (vol_noise self) K s = Ok (draws, s') /\
    _allocate_volumes self V K s = Ok (out, s') /\
    length out = Z.to_nat K /\
    (Exists (fun d => ~ d == 0) draws ->
     0 < Qsum (map Qabs draws) /\ Forall (fun o => o <> None) out) /\
    (Forall (fun d => d == 0) draws ->
     Qsum (map Qabs draws) == 0 /\ out = repeat None (Z.to_nat K)).
Proof.
  intros Hvn HK.
  destruct (normal_returns 1 _ K s Hvn ltac:(lia)) as (draws & s' & E & L).
  destruct (_allocate_volumes_returns self V K s Hvn ltac:(lia))
    as (out & s1 & Eo & Lo).
  exists draws, out, s1.
  pose proof (_allocate_volumes_run self V K s draws s' E) as Er.
  cbn zeta in Er. rewrite Er in Eo. injection Eo as Eo <-.
  split; [exact E|]. split; [rewrite Er, Eo; reflexivity|].
  split; [exact Lo|]. split.
  - intros Hex. pose proof (nonzero_draw_total draws Hex) as Hpos.
    split; [exact Hpos|].
    assert (~ Qsum (map Qabs draws) == 0) as Hnz by lra.
    pose proof (_allocate_volumes_finite self V K s draws s' E Hnz) as Ef.
    rewrite Er, Eo in Ef. injection Ef as ->.
    apply Forall_forall. intros o Ho. apply in_map_iff in Ho.
    destruct Ho as (v & <- & _). discriminate.
  - intros Hz. apply Qsum_abs_zero in Hz. split; [exact Hz|].
    pose proof (_allocate_volumes_nan self V K s draws s' E Hz) as En.
    rewrite Er, Eo, L in En. injection En as ->. reflexivity.
Qed.

(** C3 (the code at the failing input).  When no candle is left after
    [dropna], [generate_ticks] raises [KeyError]: the frame built from the
    empty tick list has no ["timestamp"] column to sort by. *)
Theorem empty_frame_raises_KeyError self df b3_stats s :
  dropna df = [] -> generate_ticks self df b3_stats s = Raise KeyError.
Proof.
  intros He. unfold generate_ticks. rewrite He.
  destruct (schedule_returns (length (@nil (Z * Row))) b3_stats s)
    as (dist & s1 & Es & _).
  rewrite (bind_run _ _ _ _ _ Es). reflexivity.
Qed.

(** C8.  Without a session statistic, under a valid configuration and
    well-formed candles: every retained candle yields exactly
    [ticks_per_min] ticks, every frame [generate_ticks] returns has
    [ticks_per_min] times the number of retained candles records, and a
    frame is returned as soon as one candle is retained. *)
Theorem count_invariant_without_statistic self df b3_stats s :
  valid_config self -> well_formed (dropna df) ->
  no_session_statistic b3_stats ->
  Forall (fun r => forall s1, exists ticks s2,
            candle_ticks self (fst r) (snd r) (ticks_per_min self) s1
            = Ok (ticks, s2) /\
            Z.of_nat (length ticks) = ticks_per_min self) (dropna df) /\
  (forall out s', generate_ticks self df b3_stats s = Ok (out, s') ->
     Z.of_nat (length (records out)) =
     (ticks_per_min self * Z.of_nat (length (dropna df)))%Z) /\
  (dropna df <> [] ->
   exists out s', generate_ticks self df b3_stats s = Ok (out, s')).
Proof.
  intros (Htpm & Hsv & Hvn) Hwf Hno. split; [|split].
  - unfold well_formed in Hwf. rewrite Forall_forall in *.
    intros [ts row] Hin s1. specialize (Hwf _ Hin). simpl in *.
    destruct (candle_ticks_returns self ts row _ s1 Hsv Hvn Hwf Htpm)
      as (ticks & s2 & E).
    exists ticks, s2. split; [exact E|].
    rewrite (candle_ticks_length _ _ _ _ _ _ _ E). lia.
  - intros out s' H. apply generate_ticks_Ok in H.
    destruct H as (dist & s1 & all & Hs & Hl & _ & ->).
    rewrite (schedule_no_statistic _ _ _ Hno) in Hs. injection Hs as <- <-.
    apply candle_loop_length in Hl. destruct Hl as [Hl _].
    rewrite sort_by_time_length, Hl. lia.
  - intros Hne. apply generate_ticks_returns; auto.
Qed.

(** C2 (amended).  Every tick of a returned frame has
    [bid = round4 (mid - spread / 2)] and [ask = round4 (mid + spread / 2)]
    for a mid price [mid] and [spread = mid * fraction], [fraction] being
    the spread fraction drawn for that tick; [bid <= ask] holds whenever
    that spread is non-negative.  In particular every tick has
    [bid <= ask] when the stream yields no negative spread fraction and no
    candle has a negative low. *)
Theorem quotes_ordered_when_spread_nonneg self df b3_stats s out s' :
  generate_ticks self df b3_stats s = Ok (out, s') ->
  Forall (fun t => exists mid s1,
            let spread := mid * spread_fraction self s1 in
            bid t = round4 (mid - spread / 2) /\
            ask t = round4 (mid + spread / 2) /\
            (0 <= spread -> bid t <= ask t))
         (records out) /\
  ((forall s1, 0 <= spread_fraction self s1) ->
   Forall (fun r => 0 <= Low (snd r)) (dropna df) ->
   Forall (fun t => bid t <= ask t) (records out)).
Proof.
  assert (forall x0 x, 0 <= x -> round4 (x0 - x / 2) <= round4 (x0 + x / 2))
    as Hhalf.
  { intros x0 x Hx. apply round4_mono.
    assert (0 <= x / 2) by (apply Qle_shift_div_l; [reflexivity|lra]). lra. }
  intros H. split.
  - revert H. apply generate_ticks_Forall.
    intros ts row dt mids vols i s1 t s2 _ _ Hb.
    apply tick_body_Ok in Hb.
    destruct Hb as (mid & u & _ & _ & _ & Hbid & Hask & _).
    exists mid, s1. cbn zeta. split; [exact Hbid|]. split; [exact Hask|].
    intros Hs. rewrite Hbid, Hask. apply Hhalf. exact Hs.
  - intros Hfrac Hlow. revert H. apply generate_ticks_Forall.
    intros ts row dt mids vols i s1 t s2 Hin Hmids Hb.
    apply tick_body_Ok in Hb.
    destruct Hb as (mid & u & Hm & _ & _ & Hbid & Hask & _).
    rewrite Hbid, Hask. apply Hhalf.
    rewrite Forall_forall in Hlow, Hmids.
    specialize (Hlow _ Hin). simpl in Hlow.
    pose proof (Hmids _ (nth_error_In _ _ Hm)) as [Hmid _].
    apply Qmult_le_0_compat; [lra|apply Hfrac].
Qed.

(** C4 (amended).  Every tick of a returned frame is built from a mid price
    that lies in [low, high] of a retained candle: bid and ask are that mid
    price minus and plus half the drawn spread, rounded to 4 decimals, and
    trade_price is the quote of the tick's side times the slippage factor
    [0.999 + 0.002 * u], rounded; none of the three is clipped to the
    candle. *)
Theorem ohlc_conformance_of_mid self df b3_stats s out s' :
  generate_ticks self df b3_stats s = Ok (out, s') ->
  Forall (fun t => exists ts row mid s1 u,
            let spread := mid * spread_fraction self s1 in
            In (ts, row) (dropna df) /\
            Low row <= mid <= High row /\
            bid t = round4 (mid - spread / 2) /\
            ask t = round4 (mid + spread / 2) /\
            trade_price t =
              round4 (match side t with
                      | buy => mid + spread / 2
                      | sell => mid - spread / 2
                      end * ((999 # 1000) + ((1001 # 1000) - (999 # 1000)) * u)))
         (records out).
Proof.
  apply generate_ticks_Forall.
  intros ts row dt mids vols i s1 t s2 Hin Hmids Hb.
  apply tick_body_Ok in Hb.
  destruct Hb as (mid & u & Hm & _ & _ & Hbid & Hask & Htp).
  exists ts, row, mid, s1, u. cbn zeta.
  split; [exact Hin|]. split.
  - rewrite Forall_forall in Hmids. apply Hmids.
    exact (nth_error_In _ _ Hm).
  - repeat split; assumption.
Qed.

(** ** Construction *)

Lemma __init___run tpm sm sv vn tw sd s :
  (0 <= sd < 2 ^ 32)%Z ->
  __init__ tpm sm sv vn tw sd s =
  Ok ({| ticks_per_min := tpm; spread_mean := sm; spread_vol := sv;
         vol_noise := vn; trend_weight := tw; seed := sd |}, np_seed sd).
Proof.
  intros [H0 H1]. unfold __init__, bind, np_random_seed.
  apply Z.leb_le in H0. apply Z.ltb_lt in H1. rewrite H0, H1. reflexivity.
Qed.

Lemma generate_ticks_first_raises self df b3_stats s ts row rest e :
  no_session_statistic b3_stats ->
  dropna df = (ts, row) :: rest ->
  candle_ticks self ts row (ticks_per_min self) s = Raise e ->
  generate_ticks self df b3_stats s = Raise e.
Proof.
  intros Hno He Hc. unfold generate_ticks. rewrite He.
  rewrite (bind_run _ _ _ _ _ (schedule_no_statistic _ _ _ Hno)).
  apply bind_raise. cbn [candle_loop].
  rewrite (bind_run _ _ s (ticks_per_min self) s) by reflexivity.
  apply bind_raise. exact Hc.
Qed.

Lemma candle_ticks_negative_count self ts row n s :
  (n < 0)%Z -> candle_ticks self ts row n s = Raise ValueError.
Proof.
  intros H. unfold candle_ticks. apply bind_raise.
  unfold _generate_midpath. apply bind_raise.
  unfold lift. rewrite (linspace_raises _ _ _ H). reflexivity.
Qed.

Lemma candle_ticks_zero_count self ts row s :
  Low row <= High row -> 0 <= vol_noise self ->
  candle_ticks self ts row 0 s = Raise ZeroDivisionError.
Proof.
  intros Hlh Hvn. unfold candle_ticks.
  destruct (_generate_midpath_returns self row 0 s Hlh ltac:(lia))
    as (mids & s1 & Em & _).
  destruct (_allocate_volumes_returns self (Volume row) 0 s1 Hvn ltac:(lia))
    as (vols & s2 & Ev & _).
  rewrite (bind_run _ _ _ _ _ Em), (bind_run _ _ _ _ _ Ev). reflexivity.
Qed.

Lemma candle_ticks_negative_noise self ts row n s :
  Low row <= High row -> (0 <= n)%Z -> vol_noise self < 0 ->
  candle_ticks self ts row n s = Raise ValueError.
Proof.
  intros Hlh Hn Hvn. unfold candle_ticks.
  destruct (_generate_midpath_returns self row n s Hlh Hn)
    as (mids & s1 & Em & _).
  rewrite (bind_run _ _ _ _ _ Em). apply bind_raise.
  unfold _allocate_volumes. apply bind_raise. apply normal_raises. exact Hvn.
Qed.

Lemma candle_ticks_negative_spread_vol self ts row n s :
  Low row <= High row -> (1 <= n)%Z -> 0 <= vol_noise self ->
  spread_vol self < 0 ->
  candle_ticks self ts row n s = Raise ValueError.
Proof.
  intros Hlh Hn Hvn Hsv. unfold candle_ticks.
  destruct (_generate_midpath_returns self row n s Hlh ltac:(lia))
    as (mids & s1 & Em & Lm & _).
  destruct (_allocate_volumes_returns self (Volume row) n s1 Hvn ltac:(lia))
    as (vols & s2 & Ev & _).
  rewrite (bind_run _ _ _ _ _ Em), (bind_run _ _ _ _ _ Ev).
  unfold bind at 1, lift at 1, int_true_div.
  destruct (Z.eqb_spec n 0); [lia|].
  destruct (Z.to_nat n) as [|k] eqn:Ek; [lia|].
  cbn [seq tick_loop]. apply bind_raise. unfold tick_body.
  destruct mids as [|mid mids]; [simpl in Lm; lia|].
  rewrite (bind_run _ _ s2 mid s2) by reflexivity.
  apply bind_raise. unfold _generate_spread. apply bind_raise.
  unfold normal1.
  assert (Qltb (spread_vol self) 0 = true) as -> by (apply Qltb_true; exact Hsv).
  reflexivity.
Qed.

(** C5 (amended).  Construction checks nothing but the seed: every
    configuration whose seed lies in [0, 2^32) is accepted and stored as
    given.  A degenerate configuration surfaces in [generate_ticks], at the
    first retained candle when no session statistic is given: a negative
    tick count raises [ValueError], a zero tick count
    [ZeroDivisionError], a negative [vol_noise] or [spread_vol]
    [ValueError]. *)
Theorem construction_checks_seed_only tpm sm sv vn tw sd s :
  (0 <= sd < 2 ^ 32)%Z ->
  let self := {| ticks_per_min := tpm; spread_mean := sm; spread_vol := sv;
                 vol_noise := vn; trend_weight := tw; seed := sd |} in
  __init__ tpm sm sv vn tw sd s = Ok (self, np_seed sd) /\
  forall df ts row rest s1,
    dropna df = (ts, row) :: rest -> Low row <= High row ->
    ((tpm < 0)%Z -> generate_ticks self df None s1 = Raise ValueError) /\
    (tpm = 0%Z -> 0 <= vn ->
     generate_ticks self df None s1 = Raise ZeroDivisionError) /\
    ((0 <= tpm)%Z -> vn < 0 ->
     generate_ticks self df None s1 = Raise ValueError) /\
    ((1 <= tpm)%Z -> 0 <= vn -> sv < 0 ->
     generate_ticks self df None s1 = Raise ValueError).
Proof.
  intros Hsd self. split; [apply __init___run; exact Hsd|].
  intros df ts row rest s1 He Hlh.
  assert (no_session_statistic None) as Hno by exact I.
  repeat split; intros.
  - apply (generate_ticks_first_raises _ _ _ _ _ _ _ _ Hno He).
    apply candle_ticks_negative_count. assumption.
  - apply (generate_ticks_first_raises _ _ _ _ _ _ _ _ Hno He).
    simpl. subst tpm. apply candle_ticks_zero_count; assumption.
  - apply (generate_ticks_first_raises _ _ _ _ _ _ _ _ Hno He).
    apply candle_ticks_negative_noise; assumption.
  - apply (generate_ticks_first_raises _ _ _ _ _ _ _ _ Hno He).
    apply candle_ticks_negative_spread_vol; assumption.
Qed.

(** C1 (amended).  A run that constructs the generator and calls
    [generate_ticks] once gives the same result, frame and final stream
    state alike, whatever state the process-wide stream was in before; so
    two such runs in a row with the same arguments return equal frames. *)
Theorem fresh_run_determined_by_seed tpm sm sv vn tw sd df b3_stats :
  (forall s1 s2,
     construct_and_generate tpm sm sv vn tw sd df b3_stats s1 =
     construct_and_generate tpm sm sv vn tw sd df b3_stats s2) /\
  (forall s a b s',
     (first <- construct_and_generate tpm sm sv vn tw sd df b3_stats ;;
      second <- construct_and_generate tpm sm sv vn tw sd df b3_stats ;;
      ret (first, second)) s = Ok ((a, b), s') ->
     a = b).
Proof.
  assert (forall s1 s2,
            construct_and_generate tpm sm sv vn tw sd df b3_stats s1 =
            construct_and_generate tpm sm sv vn tw sd df b3_stats s2) as H.
  { intros s1 s2. unfold construct_and_generate, __init__, bind at 1 3.
    unfold bind at 1 2, np_random_seed.
    destruct ((0 <=? sd) && (sd <? 2 ^ 32))%Z; reflexivity. }
  split; [exact H|].
  intros s a b s' Hr.
  apply bind_Ok in Hr. destruct Hr as (a' & s1 & Ha & Hr).
  apply bind_Ok in Hr. destruct Hr as (b' & s2 & Hb & Hr).
  apply ret_Ok in Hr. destruct Hr as [Hr _]. injection Hr as -> ->.
  rewrite (H s1 s) in Hb. congruence.
Qed.

(** ** Timestamps *)

Lemma rint_near x :
  x - (1 # 2) <= inject_Z (rint x) <= x + (1 # 2).
Proof.
  pose proof (Qfloor_le x) as Hl. pose proof (Qlt_floor x) as Hu.
  rewrite inject_Z_plus in Hu. change (inject_Z 1) with 1 in Hu.
  unfold rint.
  destruct (Qltb (x - inject_Z (Qfloor x)) (1 # 2)) eqn:E1.
  - apply Qltb_true in E1. lra.
  - apply Qltb_false in E1.
    destruct (Qltb (1 # 2) (x - inject_Z (Qfloor x))) eqn:E2.
    + rewrite inject_Z_plus. change (inject_Z 1) with 1. lra.
    + apply Qltb_false in E2. destruct (Z.even (Qfloor x)).
      * lra.
      * rewrite inject_Z_plus. change (inject_Z 1) with 1. lra.
Qed.

Lemma rint_comp x y : x == y -> rint x = rint y.
Proof.
  intros E. apply Z.le_antisymm; apply rint_mono; rewrite E; apply Qle_refl.
Qed.

Lemma rint_inject_Z z : rint (inject_Z z) = z.
Proof.
  unfold rint. rewrite Qfloor_Z.
  assert (Qltb (inject_Z z - inject_Z z) (1 # 2) = true) as ->
    by (apply Qltb_true; lra).
  reflexivity.
Qed.

Lemma timedelta_scaled n :
  (1 <= n)%Z -> inject_Z n * (60 / inject_Z n * 1000000) == 60000000.
Proof.
  intros Hn. assert (0 < inject_Z n) as Hq.
  { change 0 with (inject_Z 0). rewrite <- Zlt_Qlt. lia. }
  field. lra.
Qed.

Lemma timedelta_exact n :
  (1 <= n)%Z -> (n | 60000000)%Z ->
  (timedelta (60 / inject_Z n) * n = 60000000)%Z.
Proof.
  intros Hn [q Hq]. unfold timedelta.
  assert (60 / inject_Z n * 1000000 == inject_Z q) as E.
  { assert (0 < inject_Z n) as Hp.
    { change 0 with (inject_Z 0). rewrite <- Zlt_Qlt. lia. }
    assert (inject_Z 60000000 == inject_Z q * inject_Z n) as Hm
      by (rewrite <- inject_Z_mult, Hq; reflexivity).
    change (inject_Z 60000000) with 60000000 in Hm.
    apply (Qmult_inj_r _ _ (inject_Z n)); [lra|].
    rewrite <- Hm. field. lra. }
  rewrite (rint_comp _ _ E), rint_inject_Z. lia.
Qed.

Lemma timedelta_near n :
  (1 <= n)%Z ->
  (120000000 - n <= 2 * n * timedelta (60 / inject_Z n) <= 120000000 + n)%Z.
Proof.
  intros Hn. unfold timedelta.
  pose proof (timedelta_scaled n Hn) as Hs.
  pose proof (rint_near (60 / inject_Z n * 1000000)) as [Hlo Hhi].
  revert Hs Hlo Hhi.
  generalize (rint (60 / inject_Z n * 1000000)).
  generalize (60 / inject_Z n * 1000000). intros x d Hs Hlo Hhi.
  assert (1 <= inject_Z n) as Hq.
  { change 1 with (inject_Z 1). rewrite <- Zle_Qle. exact Hn. }
  unfold Z.sub. rewrite !Zle_Qle.
  rewrite !inject_Z_mult, !inject_Z_plus, inject_Z_opp.
  change (inject_Z 120000000) with 120000000.
  change (inject_Z 2) with 2.
  revert Hs Hlo Hhi Hq. generalize (inject_Z n) (inject_Z d).
  intros qn qd Hs Hlo Hhi Hq. split; nra.
Qed.

Lemma timedelta_fits n :
  fits_minute n ->
  (0 < timedelta (60 / inject_Z n))%Z /\
  ((n - 1) * timedelta (60 / inject_Z n) < 60000000)%Z.
Proof.
  intros [Hn [Hd|Hs]].
  - pose proof (timedelta_exact n Hn Hd) as E. split; nia.
  - pose proof (timedelta_near n Hn) as [Hlo Hhi]. split; nia.
Qed.

Lemma sorted_app (l1 l2 : list Z) :
  StronglySorted Z.lt l1 -> StronglySorted Z.lt l2 ->
  (forall x y, In x l1 -> In y l2 -> (x < y)%Z) ->
  StronglySorted Z.lt (l1 ++ l2).
Proof.
  intros H1 H2 Hx. induction H1 as [|a l1 H1 IH Ha]; [exact H2|].
  simpl. constructor.
  - apply IH. intros x y Hi Hj. apply Hx; [right; exact Hi|exact Hj].
  - apply Forall_app. split; [exact Ha|].
    apply Forall_forall. intros y Hy. apply Hx; [left; reflexivity|exact Hy].
Qed.

Lemma steps_sorted ts dt a k :
  (0 < dt)%Z ->
  StronglySorted Z.lt (map (fun i => tick_time ts i dt) (seq a k)).
Proof.
  intros Hdt. revert a. induction k as [|k IH]; intros a; simpl.
  - constructor.
  - constructor; [apply IH|].
    apply Forall_forall. intros y Hy. apply in_map_iff in Hy.
    destruct Hy as (i & <- & Hi). apply in_seq in Hi.
    unfold tick_time. nia.
Qed.

Lemma candle_times_sorted ts n :
  fits_minute n -> StronglySorted Z.lt (candle_times ts n).
Proof.
  intros H. apply steps_sorted. apply timedelta_fits. exact H.
Qed.

Lemma candle_times_range ts n x :
  fits_minute n -> In x (candle_times ts n) ->
  (ts <= x < ts + 60000000000)%Z.
Proof.
  intros H Hx. pose proof H as [Hn _].
  destruct (timedelta_fits n H) as [Hp Hq].
  unfold candle_times in Hx. apply in_map_iff in Hx.
  destruct Hx as (i & <- & Hi). apply in_seq in Hi. unfold tick_time.
  assert (Z.of_nat i <= n - 1)%Z by lia. nia.
Qed.

Lemma session_times_lower b rows counts :
  Forall (fun r : Z * Row => (b <= fst r)%Z) rows ->
  Forall fits_minute counts ->
  Forall (fun y => (b <= y)%Z)
         (concat (zip_with (fun r n => candle_times (fst r) n) rows counts)).
Proof.
  intros Hr. revert counts.
  induction Hr as [|r rows Hb _ IH]; intros counts Hc; [constructor|].
  destruct Hc as [|n counts Hn Hc]; [constructor|]. simpl.
  apply Forall_app. split; [|apply IH; exact Hc].
  apply Forall_forall. intros x Hx.
  apply (candle_times_range _ _ _ Hn) in Hx. lia.
Qed.

Lemma session_times_sorted (rows : list (Z * Row)) counts :
  StronglySorted minute_apart (map fst rows) ->
  Forall fits_minute counts ->
  StronglySorted Z.lt
    (concat (zip_with (fun r n => candle_times (fst r) n) rows counts)).
Proof.
  revert counts. induction rows as [|r rows IH]; intros counts Hs Hc;
    [constructor|].
  destruct Hc as [|n counts Hn Hc]; [constructor|]. simpl.
  simpl in Hs. inversion Hs as [|? ? Hs' Hgap]; subst.
  apply sorted_app.
  - apply candle_times_sorted. exact Hn.
  - apply IH; assumption.
  - intros x y Hx Hy. apply (candle_times_range _ _ _ Hn) in Hx.
    assert (Forall (fun y => (fst r + 60000000000 <= y)%Z)
              (concat (zip_with (fun r n => candle_times (fst r) n)
                         rows counts))) as Hl.
    { apply session_times_lower; [|exact Hc].
      rewrite Forall_map in Hgap. exact Hgap. }
    rewrite Forall_forall in Hl. specialize (Hl y Hy). lia.
Qed.

Lemma minute_apart_strong l :
  Sorted minute_apart l -> StronglySorted minute_apart l.
Proof.
  apply Sorted_StronglySorted. intros a b c. unfold minute_apart. lia.
Qed.

Lemma sort_by_time_sorted l :
  StronglySorted Z.lt (map timestamp l) -> sort_by_time l = l.
Proof.
  induction l as [|t l IH]; intros H; [reflexivity|].
  simpl in H. inversion H as [|? ? Hs Hall]; subst.
  simpl. rewrite (IH Hs). destruct l as [|u l]; [reflexivity|].
  simpl. inversion Hall as [|? ? Hu _]; subst.
  assert ((timestamp t <=? timestamp u)%Z = true) as ->
    by (apply Z.leb_le; lia).
  reflexivity.
Qed.

Lemma candle_loop_times self dist k rows s all s' :
  candle_loop self dist k rows s = Ok (all, s') ->
  exists counts,
    length counts = length rows /\
    Forall (fun n => exists k', pick_num_ticks self dist k' = Ok n) counts /\
    map timestamp all =
      concat (zip_with (fun r n => candle_times (fst r) n) rows counts).
Proof.
  intros H. apply candle_loop_Ok in H. destruct H as (parts & -> & F).
  exists (map fst parts).
  induction F as [|[ts row] [n ticks] rows parts (k' & s1 & s2 & Hp & Hc) _ IH].
  - repeat split; constructor.
  - destruct IH as (IH1 & IH2 & IH3). simpl in Hp, Hc. split; [|split].
    + simpl. congruence.
    + constructor; [exists k'; exact Hp|exact IH2].
    + simpl. rewrite map_app, IH3.
      rewrite (candle_ticks_times _ _ _ _ _ _ _ Hc). reflexivity.
Qed.

(** C7 (amended).  Tick [i] of a candle that starts at [ts] and carries [n]
    ticks is stamped [ts + i * dt], where [dt] is 60/n seconds rounded to
    the nearest microsecond: exactly 60/n seconds when [n] divides
    60,000,000, and never more than half a microsecond off.  For candle
    starts at least one minute apart and tick counts that fit the minute
    ([fits_minute]), [dt] is positive, so the stamps of a candle increase
    strictly in equal steps, and the returned frame is strictly ascending
    by timestamp. *)
Theorem tick_times_strictly_ascending self df b3_stats s out s' :
  generate_ticks self df b3_stats s = Ok (out, s') ->
  Sorted minute_apart (map fst (dropna df)) ->
  (forall dist s1 k n,
     schedule (length (dropna df)) b3_stats s = Ok (dist, s1) ->
     pick_num_ticks self dist k = Ok n -> fits_minute n) ->
  exists counts,
    length counts = length (dropna df) /\
    (no_session_statistic b3_stats ->
     Forall (fun n => n = ticks_per_min self) counts) /\
    map timestamp (records out) =
      concat (zip_with (fun r n => candle_times (fst r) n)
                (dropna df) counts) /\
    Forall (fun n =>
              (0 < timedelta (60 / inject_Z n))%Z /\
              (120000000 - n <= 2 * n * timedelta (60 / inject_Z n)
               <= 120000000 + n)%Z /\
              ((n | 60000000)%Z ->
               (timedelta (60 / inject_Z n) * n = 60000000)%Z)) counts /\
    StronglySorted Z.lt (map timestamp (records out)).
Proof.
  intros H Hgap Hfit. apply generate_ticks_Ok in H.
  destruct H as (dist & s1 & all & Hs & Hl & _ & Hout).
  destruct (candle_loop_times _ _ _ _ _ _ _ Hl) as (counts & Hlen & Hpick & Ht).
  assert (Forall fits_minute counts) as Hfits.
  { rewrite Forall_forall in *. intros n Hn.
    destruct (Hpick n Hn) as (k' & Hk'). exact (Hfit dist s1 k' n Hs Hk'). }
  assert (StronglySorted Z.lt (map timestamp all)) as Hsorted.
  { rewrite Ht. apply session_times_sorted; [|exact Hfits].
    apply minute_apart_strong. exact Hgap. }
  rewrite Hout, (sort_by_time_sorted _ Hsorted).
  exists counts. split; [exact Hlen|]. split; [|split; [exact Ht|split]].
  - intros Hno. rewrite (schedule_no_statistic _ _ _ Hno) in Hs.
    injection Hs as <- _. rewrite Forall_forall in *. intros n Hn.
    destruct (Hpick n Hn) as (k' & Hk'). rewrite pick_num_ticks_None in Hk'.
    congruence.
  - rewrite Forall_forall in *. intros n Hn. specialize (Hfits n Hn).
    pose proof Hfits as [H1 _]. split; [apply timedelta_fits; exact Hfits|].
    split; [apply timedelta_near; exact H1|].
    apply timedelta_exact. exact H1.
  - exact Hsorted.
Qed.

End Properties.

(** * Concrete runs *)

(** ** Runs inside the hypotheses of the theorems *)

Lemma clipped_path_witness :
  exists mids s',
    @_generate_midpath calm (default_generator 120) example_row 120 seeded
    = Ok (mids, s') /\
    length mids = Z.to_nat 120 /\
    Forall (fun m => Low example_row <= m <= High example_row) mids.
Proof.
  apply (@midpath_clipped_into_candle calm (default_generator 120) example_row 120
           seeded).
  - vm_compute. discriminate.
  - lia.
Defined.


Lemma allocation_divisor_witness :
  exists draws out s',
    @normal calm 1 (4 # 10) 120 seeded = Ok (draws, s') /\
    @_allocate_volumes calm (default_generator 120) 12000 120 seeded
    = Ok (out, s') /\
    length out = Z.to_nat 120 /\
    (Exists (fun d => ~ d == 0) draws ->
     0 < Qsum (map Qabs draws) /\ Forall (fun o => o <> None) out) /\
    (Forall (fun d => d == 0) draws ->
     Qsum (map Qabs draws) == 0 /\ out = repeat None (Z.to_nat 120)).
Proof.
  apply (@allocation_divisor calm (default_generator 120) 12000 120
           seeded).
  - vm_compute. discriminate.
  - lia.
Defined.

(** A frame whose only row lacks its volume: nothing is left after
    [dropna]. *)
Lemma empty_frame_witness :
  @generate_ticks calm (default_generator 120) [(t0930, incomplete_raw)] None
    seeded
  = Raise KeyError.
Proof.
  apply (@empty_frame_raises_KeyError calm (default_generator 120)
           [(t0930, incomplete_raw)] None seeded).
  reflexivity.
Defined.

Lemma count_invariant_witness :
  Forall (fun r => forall s1, exists ticks s2,
            @candle_ticks calm (default_generator 120) (fst r) (snd r) 120 s1
            = Ok (ticks, s2) /\
            Z.of_nat (length ticks) = 120%Z) (dropna two_candles) /\
  (forall out s',
     @generate_ticks calm (default_generator 120) two_candles None seeded
     = Ok (out, s') ->
     Z.of_nat (length (records out)) =
     (120 * Z.of_nat (length (dropna two_candles)))%Z) /\
  (dropna two_candles <> [] ->
   exists out s',
     @generate_ticks calm (default_generator 120) two_candles None seeded
     = Ok (out, s')).
Proof.
  apply (@count_invariant_without_statistic calm (default_generator 120)
           two_candles None seeded).
  - repeat split; vm_compute; discriminate.
  - repeat constructor; vm_compute; discriminate.
  - exact I.
Defined.

Lemma quotes_ordered_witness :
  exists out s',
    @generate_ticks calm (default_generator 3) one_candle None seeded
    = Ok (out, s') /\
    Forall (fun t => exists mid s1,
              let spread :=
                mid * @spread_fraction calm (default_generator 3) s1 in
              bid t = round4 (mid - spread / 2) /\
              ask t = round4 (mid + spread / 2) /\
              (0 <= spread -> bid t <= ask t))
           (records out) /\
    Forall (fun t => bid t <= ask t) (records out).
Proof.
  eexists _, _. split; [vm_compute; reflexivity|].
  destruct (@quotes_ordered_when_spread_nonneg calm (default_generator 3)
              one_candle None seeded _ _ eq_refl) as [Hrepr Hall].
  split; [exact Hrepr|]. apply Hall.
  - intros [z [|n]]; vm_compute; discriminate.
  - repeat constructor. vm_compute. discriminate.
Defined.

Lemma ohlc_conformance_witness :
  exists out s',
    @generate_ticks calm (default_generator 3) one_candle None seeded
    = Ok (out, s') /\
    Forall (fun t => exists ts row mid s1 u,
              let spread :=
                mid * @spread_fraction calm (default_generator 3) s1 in
              In (ts, row) (dropna one_candle) /\
              Low row <= mid <= High row /\
              bid t = round4 (mid - spread / 2) /\
              ask t = round4 (mid + spread / 2) /\
              trade_price t =
                round4 (match side t with
                        | buy => mid + spread / 2
                        | sell => mid - spread / 2
                        end
                        * ((999 # 1000) + ((1001 # 1000) - (999 # 1000)) * u)))
           (records out).
Proof.
  eexists _, _. split; [vm_compute; reflexivity|].
  eapply (@ohlc_conformance_of_mid calm (default_generator 3) one_candle None
            seeded).
  vm_compute. reflexivity.
Defined.

Lemma construction_witness :
  let self := {| ticks_per_min := 0; spread_mean := 15 # 10000;
                 spread_vol := 3 # 10000; vol_noise := 4 # 10;
                 trend_weight := 6 # 10; seed := 42 |} in
  @__init__ calm 0 (15 # 10000) (3 # 10000) (4 # 10) (6 # 10) 42 seeded
  = Ok (self, @np_seed calm 42) /\
  forall df ts row rest s1,
    dropna df = (ts, row) :: rest -> Low row <= High row ->
    ((0 < 0)%Z -> @generate_ticks calm self df None s1 = Raise ValueError) /\
    (0%Z = 0%Z -> 0 <= 4 # 10 ->
     @generate_ticks calm self df None s1 = Raise ZeroDivisionError) /\
    ((0 <= 0)%Z -> 4 # 10 < 0 ->
     @generate_ticks calm self df None s1 = Raise ValueError) /\
    ((1 <= 0)%Z -> 0 <= 4 # 10 -> 3 # 10000 < 0 ->
     @generate_ticks calm self df None s1 = Raise ValueError).
Proof.
  apply (@construction_checks_seed_only calm 0 (15 # 10000) (3 # 10000)
           (4 # 10) (6 # 10) 42 seeded).
  lia.
Defined.

(** Two runs with seed 42, started from two different states of the
    stream. *)
Lemma determinism_witness :
  @construct_and_generate drifting 120 (15 # 10000) (3 # 10000) (4 # 10)
    (6 # 10) 42 two_candles None (0%Z, O) =
  @construct_and_generate drifting 120 (15 # 10000) (3 # 10000) (4 # 10)
    (6 # 10) 42 two_candles None (7%Z, 5%nat).
Proof.
  apply (@fresh_run_determined_by_seed drifting 120 (15 # 10000) (3 # 10000)
           (4 # 10) (6 # 10) 42 two_candles None).
Defined.

Lemma chronology_witness :
  exists out s' counts,
    @generate_ticks calm (default_generator 4) two_candles None seeded
    = Ok (out, s') /\
    length counts = length (dropna two_candles) /\
    (@no_session_statistic None -> Forall (fun n => n = 4%Z) counts) /\
    map timestamp (records out) =
      concat (zip_with (fun r n => candle_times (fst r) n)
                (dropna two_candles) counts) /\
    Forall (fun n =>
              (0 < timedelta (60 / inject_Z n))%Z /\
              (120000000 - n <= 2 * n * timedelta (60 / inject_Z n)
               <= 120000000 + n)%Z /\
              ((n | 60000000)%Z ->
               (timedelta (60 / inject_Z n) * n = 60000000)%Z)) counts /\
    StronglySorted Z.lt (map timestamp (records out)).
Proof.
  eexists _, _.
  assert (forall (P : list Z -> Prop) (A : Prop),
            A -> (A -> exists c, P c) -> exists c, A /\ P c) as pack.
  { intros P A a H. destruct (H a) as (c & Hc). exists c. split; assumption. }
  apply pack; [vm_compute; reflexivity|]. intros Hrun.
  apply (@tick_times_strictly_ascending calm (default_generator 4) two_candles None
           seeded _ _ Hrun).
  - repeat constructor. unfold minute_apart. simpl. lia.
  - intros dist s1 k n Hs Hp. vm_compute in Hs. injection Hs as <- _.
    vm_compute in Hp. injection Hp as <-.
    split; [lia|]. right. lia.
Defined.

(** ** Runs that contradict the claims as first stated *)

(** C1.  One instance, two calls with the same arguments: the second call
    continues the stream where the first one left it, and the two frames
    differ. *)
Lemma repeated_invocation_differs :
  exists a b s' ta tb,
    @generate_twice drifting 1 (15 # 10000) (3 # 10000) (4 # 10) (6 # 10) 42
      one_candle None seeded
    = Ok ((a, b), s') /\
    records a = [ta] /\ records b = [tb] /\ ~ bid ta == bid tb.
Proof.
  eexists _, _, _, _, _. split; [vm_compute; reflexivity|].
  split; [reflexivity|]. split; [reflexivity|].
  vm_compute. discriminate.
Qed.

(** C2.  The default configuration and one spread deviate six standard
    deviations low: the spread fraction is -0.0003 and the tick has
    bid 10.0015 above ask 9.9985. *)
Lemma inverted_quotes :
  exists out s' t,
    @generate_ticks inverted (default_generator 1) one_candle None seeded
    = Ok (out, s') /\
    In t (records out) /\ ask t < bid t.
Proof.
  eexists _, _, _. split; [vm_compute; reflexivity|].
  split; [left; reflexivity|]. vm_compute. reflexivity.
Qed.

(** C4.  The default configuration on the example candle with every normal
    deviate 0: the last mid price is clipped to the high 10.20 and its ask,
    10.2076, lies above the high. *)
Lemma ask_above_high :
  exists out s' t,
    @generate_ticks calm (default_generator 3) one_candle None seeded
    = Ok (out, s') /\
    In t (records out) /\ High example_row < ask t.
Proof.
  eexists _, _, _. split; [vm_compute; reflexivity|].
  split; [right; right; left; reflexivity|]. vm_compute. reflexivity.
Qed.

(** C5.  A zero tick count and negative volatilities are accepted by the
    constructor. *)
Lemma degenerate_construction_succeeds :
  exists self s',
    @__init__ calm 0 (15 # 10000) (- (3 # 10000)) (- (4 # 10)) (6 # 10) 42
      seeded
    = Ok (self, s') /\
    ticks_per_min self = 0%Z /\ spread_vol self < 0 /\ vol_noise self < 0.
Proof.
  eexists _, _. split; [vm_compute; reflexivity|].
  repeat split.
Qed.

(** C7.  Seven ticks in the minute: the second tick is stamped 8.571429 s
    after the candle start, not 60/7 s.  Two hundred million ticks in the
    minute: the step rounds to 0 microseconds and the first two ticks of a
    candle carry the same stamp. *)
Lemma seventh_of_a_minute :
  (exists out s' t,
     @generate_ticks calm (default_generator 7) one_candle None seeded
     = Ok (out, s') /\
     nth_error (records out) 1 = Some t /\
     timestamp t = (t0930 + 8571429000)%Z /\
     ~ inject_Z (timestamp t - t0930) / 1000000000 == 1 * (60 / 7)) /\
  timedelta (60 / inject_Z 200000000) = 0%Z /\
  tick_time t0930 1 (timedelta (60 / inject_Z 200000000)) =
  tick_time t0930 0 (timedelta (60 / inject_Z 200000000)).
Proof.
  split.
  - eexists _, _, _. split; [vm_compute; reflexivity|].
    split; [reflexivity|]. split; [reflexivity|].
    vm_compute. discriminate.
  - split; vm_compute; reflexivity.
Qed.


(** C10.  The same draw: the divisor is zero and the entry is not finite. *)
Lemma zero_divisor :
  exists draws s',
    @normal cancelling 1 (vol_noise (default_generator 120)) 1 seeded
    = Ok (draws, s') /\
    Qsum (map Qabs draws) == 0 /\
    @_allocate_volumes cancelling (default_generator 120) 100 1 seeded
    = Ok ([None], s').
Proof.
  eexists _, _. split; [vm_compute; reflexivity|].
  split; vm_compute; reflexivity.
Qed.

(** * Further properties of the generator *)

Section Schedule.

Context {np : NumPy}.

Lemma Qsum_scale S T us :
  Qsum (map (fun u => u / S * T) us) == Qsum us / S * T.
Proof.
  induction us as [|u us IH]; simpl.
  - unfold Qdiv. ring.
  - rewrite IH. unfold Qdiv. ring.
Qed.

Lemma Qsum_floor_positive (c : Q) us :
  0 < c -> Forall (fun u => c <= u) us -> us <> [] -> 0 < Qsum us.
Proof.
  intros Hc Hus Hne. destruct Hus as [|u us Hu Hus]; [congruence|].
  simpl. assert (0 <= Qsum us) as Hr.
  { clear Hne Hu. induction Hus as [|v vs Hv _ IH]; simpl; lra. }
  lra.
Qed.

Lemma Qsum_max_one xs :
  Qsum xs <= Qsum (map (Qmax 1) xs) /\
  (Forall (fun x => 0 <= x) xs ->
   Qsum (map (Qmax 1) xs) <= Qsum xs + inject_Z (Z.of_nat (length xs))).
Proof.
  induction xs as [|x xs [IH1 IH2]].
  - simpl. split; [lra|]. intros _. change (inject_Z 0) with 0. lra.
  - cbn [map Qsum fold_right length].
    pose proof (Q.le_max_r 1 x) as Hx. split; [fold (Qsum xs) in *; fold (Qsum (map (Qmax 1) xs)) in *; lra|].
    intros Hall. inversion Hall as [|? ? H0 Hrest]; subst.
    specialize (IH2 Hrest).
    rewrite Nat2Z.inj_succ. unfold Z.succ. rewrite inject_Z_plus.
    change (inject_Z 1) with 1.
    assert (Qmax 1 x <= x + 1) as Hm.
    { apply Q.max_lub; lra. }
    fold (Qsum xs) in *. fold (Qsum (map (Qmax 1) xs)) in *. lra.
Qed.

Lemma _u_shape_curve_returns minutes total_minutes s :
  exists curve s',
    _u_shape_curve minutes total_minutes s = Ok (curve, s') /\
    length curve = length minutes /\
    Forall (fun c => (1 # 10) <= c) curve.
Proof.
  unfold _u_shape_curve.
  destruct (normal_returns 1 (1 # 10) (Z.of_nat (length minutes)) s)
    as (noise & s' & E & L); [discriminate|lia|].
  rewrite Nat2Z.id in L.
  eexists _, s'. unfold bind. rewrite E. split; [reflexivity|]. split.
  - rewrite length_map, zip_with_length, length_map, zip_with_length,
      !length_map. lia.
  - apply Forall_forall. intros c Hc. apply in_map_iff in Hc.
    destruct Hc as (x & <- & _). apply Q.le_max_l.
Qed.


Lemma _calculate_intraday_distribution_Ok n total s d s' :
  _calculate_intraday_distribution n total s = Ok (d, s') ->
  exists u_curve,
    length u_curve = n /\ Forall (fun c => (1 # 10) <= c) u_curve /\
    d = map (Qmax 1)
          (map (fun u => u / Qsum u_curve * inject_Z total) u_curve).
Proof.
  unfold _calculate_intraday_distribution. intros H.
  apply bind_Ok in H. destruct H as (u_curve & s1 & Hu & H).
  apply ret_Ok in H. destruct H as [-> ->].
  destruct (_u_shape_curve_returns (map Z.of_nat (seq 0 n)) (Z.of_nat n) s)
    as (c & s2 & Ec & Lc & Fc).
  rewrite Ec in Hu. injection Hu as <- <-.
  exists c. rewrite length_map, length_seq in Lc.
  split; [exact Lc|]. split; [exact Fc|]. reflexivity.
Qed.

Lemma _calculate_intraday_distribution_bounds N T s :
  (1 <= N)%nat -> (0 <= T)%Z ->
  exists d s',
    _calculate_intraday_distribution N T s = Ok (d, s') /\
    length d = N /\
    Forall (fun x => 1 <= x) d /\
    inject_Z T <= Qsum d <= inject_Z T + inject_Z (Z.of_nat N).
Proof.
  intros HN HT.
  destruct (_calculate_intraday_distribution_returns N T s)
    as (d & s' & E & L).
  exists d, s'. split; [exact E|]. split; [exact L|].
  apply _calculate_intraday_distribution_Ok in E.
  destruct E as (u & Lu & Fu & ->).
  assert (u <> []) as Hne by (destruct u; [simpl in Lu; lia|discriminate]).
  pose proof (Qsum_floor_positive (1 # 10) u ltac:(reflexivity) Fu Hne) as HS.
  assert (0 <= inject_Z T) as HTq
    by (change 0 with (inject_Z 0); rewrite <- Zle_Qle; exact HT).
  split.
  - apply Forall_forall. intros x Hx. apply in_map_iff in Hx.
    destruct Hx as (y & <- & _). apply Q.le_max_l.
  - set (xs := map (fun u0 => u0 / Qsum u * inject_Z T) u).
    destruct (Qsum_max_one xs) as [Hlo Hhi].
    assert (Qsum xs == inject_Z T) as Hsum.
    { unfold xs. rewrite Qsum_scale. field. lra. }
    assert (Forall (fun x => 0 <= x) xs) as Hnn.
    { unfold xs. apply Forall_forall. intros x Hx. apply in_map_iff in Hx.
      destruct Hx as (y & <- & Hy). rewrite Forall_forall in Fu.
      specialize (Fu y Hy). apply Qmult_le_0_compat; [|exact HTq].
      apply Qle_shift_div_l; [exact HS|]. lra. }
    specialize (Hhi Hnn). unfold xs in Hhi at 3.
    rewrite length_map, Lu in Hhi. rewrite Hsum in Hlo, Hhi.
    split; assumption.
Qed.

(** X2.  For [N >= 1] minutes and a total [T >= 0],
    [_calculate_intraday_distribution] returns [N] per-minute counts, each
    at least 1, whose sum lies between [T] and [T + N]. *)
Theorem intraday_distribution_sum N T s :
  (1 <= N)%nat -> (0 <= T)%Z ->
  exists d s',
    _calculate_intraday_distribution N T s = Ok (d, s') /\
    length d = N /\
    Forall (fun x => 1 <= x) d /\
    inject_Z T <= Qsum d <= inject_Z T + inject_Z (Z.of_nat N).
Proof.
  intros HN HT. apply _calculate_intraday_distribution_bounds; assumption.
Qed.

End Schedule.

Lemma intraday_distribution_sum_witness :
  exists d s',
    @_calculate_intraday_distribution calm 3 900 seeded = Ok (d, s') /\
    length d = 3%nat /\
    Forall (fun x => 1 <= x) d /\
    inject_Z 900 <= Qsum d <= inject_Z 900 + inject_Z (Z.of_nat 3).
Proof.
  apply (@intraday_distribution_sum calm 3 900 seeded); lia.
Defined.

Section Session.

Context {np : NumPy}.

(** ** Tick counts under a session statistic *)

Lemma schedule_statistic n b3_stats T s :
  session_statistic b3_stats T ->
  schedule n b3_stats s =
  (d <- _calculate_intraday_distribution n T ;; ret (Some d)) s.
Proof.
  intros (e & d & -> & Hg). unfold schedule. rewrite Hg. reflexivity.
Qed.

Lemma session_statistic_not_absent b3_stats T :
  session_statistic b3_stats T -> ~ no_session_statistic b3_stats.
Proof.
  intros (e & d & -> & Hg) Hno. unfold no_session_statistic in Hno.
  congruence.
Qed.

Lemma skipn_nth_error {A} (d : list A) k x :
  nth_error d k = Some x -> skipn k d = x :: skipn (S k) d.
Proof.
  revert d. induction k as [|k IH]; intros [|y d] H; try discriminate.
  - injection H as ->. reflexivity.
  - simpl in H. change (skipn k d = x :: skipn (S k) d). exact (IH d H).
Qed.

Lemma pick_num_ticks_Some_Ok self d k n :
  pick_num_ticks self (Some d) k = Ok n ->
  exists x, nth_error d k = Some x /\ n = Z.max 1 (trunc x).
Proof.
  unfold pick_num_ticks, getitem.
  destruct (nth_error d k) as [x|]; [|discriminate].
  intros H. injection H as <-. exists x. split; reflexivity.
Qed.

Lemma candle_loop_Some_length self d k rows s all s' :
  candle_loop self (Some d) k rows s = Ok (all, s') ->
  Z.of_nat (length all) =
  Zsum (map (fun x => Z.max 1 (trunc x)) (firstn (length rows) (skipn k d))) /\
  length (firstn (length rows) (skipn k d)) = length rows.
Proof.
  revert k s all s'. induction rows as [|[ts row] rows IH]; intros k s all s' H.
  - apply ret_Ok in H. destruct H as [-> _]. split; reflexivity.
  - cbn [candle_loop] in H.
    apply bind_Ok in H. destruct H as (n & s1 & Hn & H).
    apply lift_Ok in Hn. destruct Hn as [Hn ->].
    apply bind_Ok in H. destruct H as (ticks & s2 & Ht & H).
    apply bind_Ok in H. destruct H as (more & s3 & Hmore & H).
    apply ret_Ok in H. destruct H as [-> ->].
    apply pick_num_ticks_Some_Ok in Hn. destruct Hn as (x & Hx & ->).
    rewrite (skipn_nth_error _ _ _ Hx).
    destruct (IH _ _ _ _ Hmore) as [IH1 IH2].
    cbn [length firstn map Zsum fold_right].
    fold (Zsum (map (fun x => Z.max 1 (trunc x))
                  (firstn (length rows) (skipn (S k) d)))).
    rewrite length_app, Nat2Z.inj_add, IH1, IH2.
    rewrite (candle_ticks_length _ _ _ _ _ _ _ Ht). split; [lia|reflexivity].
Qed.

Lemma truncated_counts d :
  Forall (fun x => 1 <= x) d ->
  Forall (fun n => (1 <= n)%Z) (map (fun x => Z.max 1 (trunc x)) d) /\
  inject_Z (Zsum (map (fun x => Z.max 1 (trunc x)) d)) <= Qsum d /\
  (d <> [] ->
   Qsum d - inject_Z (Z.of_nat (length d)) <
   inject_Z (Zsum (map (fun x => Z.max 1 (trunc x)) d))).
Proof.
  induction 1 as [|x d Hx Hd (IH1 & IH2 & IH3)].
  - simpl. split; [constructor|]. split; [apply Qle_refl|congruence].
  - destruct (trunc_bounds x ltac:(lra)) as (B1 & B2 & B3).
    assert (1 <= trunc x)%Z as Ht.
    { assert (inject_Z 0 < inject_Z (trunc x)) as Hlt
        by (change (inject_Z 0) with 0; lra).
      rewrite <- Zlt_Qlt in Hlt. lia. }
    cbn [map Zsum fold_right Qsum length].
    fold (Zsum (map (fun x => Z.max 1 (trunc x)) d)). fold (Qsum d).
    rewrite (Z.max_r 1 (trunc x)) by lia.
    rewrite inject_Z_plus, Nat2Z.inj_succ. unfold Z.succ.
    rewrite inject_Z_plus. change (inject_Z 1) with 1.
    split; [constructor; [lia|exact IH1]|]. split; [lra|]. intros _.
    destruct d as [|y d].
    + simpl in *. change (inject_Z 0) with 0. lra.
    + assert (y :: d <> []) as Hne by discriminate. specialize (IH3 Hne). lra.
Qed.

(** X3.  With a session statistic [totneg = T >= 0], every frame
    [generate_ticks] returns holds at least one tick per retained candle,
    and its number of ticks [L] satisfies [T - N < L <= T + N] for [N]
    retained candles; [ticks_per_min] plays no part. *)
Theorem tick_total_under_statistic self df b3_stats T s out s' :
  session_statistic b3_stats T -> (0 <= T)%Z ->
  generate_ticks self df b3_stats s = Ok (out, s') ->
  let N := Z.of_nat (length (dropna df)) in
  let L := Z.of_nat (length (records out)) in
  (N <= L)%Z /\ (T - N < L <= T + N)%Z.
Proof.
  intros Hstat HT H N L. apply generate_ticks_Ok in H.
  destruct H as (dist & s1 & all & Hs & Hl & Hne & Hout).
  rewrite (schedule_statistic _ _ _ _ Hstat) in Hs.
  apply bind_Ok in Hs. destruct Hs as (d & s2 & Hd & Hs).
  apply ret_Ok in Hs. destruct Hs as [-> ->].
  assert (dropna df <> []) as Hrows.
  { intros E. rewrite E in Hl. apply ret_Ok in Hl. destruct Hl as [-> _].
    congruence. }
  assert (1 <= length (dropna df))%nat as HN
    by (destruct (dropna df); [congruence|simpl; lia]).
  destruct (_calculate_intraday_distribution_bounds _ T s HN HT)
    as (d' & s3 & Ed & Ld & Fd & Hsum).
  rewrite Ed in Hd. injection Hd as <- <-.
  apply candle_loop_Some_length in Hl. destruct Hl as [Hlen _].
  rewrite skipn_O, <- Ld, firstn_all in Hlen.
  destruct (truncated_counts d' Fd) as (C1 & C2 & C3).
  assert (d' <> []) as Hdne by (destruct d'; [simpl in Ld; lia|discriminate]).
  specialize (C3 Hdne).
  assert (Z.of_nat (length d') <= Zsum (map (fun x => Z.max 1 (trunc x)) d'))%Z
    as Hge.
  { clear - C1. induction d' as [|x d' IH]; [simpl; lia|].
    cbn [map] in *. inversion C1 as [|? ? H1 Hr]; subst.
    specialize (IH Hr). cbn [Zsum fold_right length].
    fold (Zsum (map (fun x => Z.max 1 (trunc x)) d')). lia. }
  unfold L, N. rewrite Hout, sort_by_time_length, Hlen, <- Ld.
  split; [exact Hge|].
  revert Hsum C2 C3. rewrite Ld.
  generalize (Zsum (map (fun x => Z.max 1 (trunc x)) d')).
  generalize (Qsum d'). intros q z [Hlo Hhi] C2 C3.
  split.
  - rewrite Zlt_Qlt. unfold Z.sub. rewrite inject_Z_plus, inject_Z_opp. lra.
  - rewrite Zle_Qle, inject_Z_plus. lra.
Qed.

End Session.

Lemma tick_total_under_statistic_witness :
  exists out s',
    @generate_ticks calm (default_generator 0) two_candles
      (Some [("totneg"%string, 15%Z)]) seeded = Ok (out, s') /\
    (Z.of_nat (length (dropna two_candles))
     <= Z.of_nat (length (records out)))%Z /\
    (15 - Z.of_nat (length (dropna two_candles))
     < Z.of_nat (length (records out))
     <= 15 + Z.of_nat (length (dropna two_candles)))%Z.
Proof.
  eexists _, _. split; [vm_compute; reflexivity|].
  eapply (@tick_total_under_statistic calm (default_generator 0) two_candles
            (Some [("totneg"%string, 15%Z)]) 15 seeded _ _).
  - eexists _, _. split; reflexivity.
  - lia.
  - vm_compute. reflexivity.
Defined.

Section Outcomes.

Context {np : NumPy}.

(** ** Which calls raise, and what *)

Lemma bind_Raise {A B} (m : M A) (f : A -> M B) s e :
  bind m f s = Raise e ->
  m s = Raise e \/ exists a s1, m s = Ok (a, s1) /\ f a s1 = Raise e.
Proof.
  unfold bind. destruct (m s) as [[a s1]|e'].
  - intros H. right. exists a, s1. split; [reflexivity|exact H].
  - intros H. left. injection H as <-. reflexivity.
Qed.

Lemma lift_Raise {A} (r : result A) s e : lift r s = Raise e -> r = Raise e.
Proof.
  unfold lift. destruct r; [discriminate|]. intros H. injection H as <-.
  reflexivity.
Qed.

Lemma normal_Ok loc scale size s xs s' :
  normal loc scale size s = Ok (xs, s') ->
  0 <= scale /\ (0 <= size)%Z /\ length xs = Z.to_nat size.
Proof.
  unfold normal.
  destruct (Qltb scale 0) eqn:E1; [discriminate|].
  destruct (size <? 0)%Z eqn:E2; [discriminate|].
  apply Qltb_false in E1. apply Z.ltb_ge in E2. intros H.
  destruct (normal_returns loc scale size s E1 E2) as (xs' & s1 & E & L).
  unfold normal in E.
  assert (Qltb scale 0 = false) as Hq by (apply Qltb_false; exact E1).
  assert ((size <? 0)%Z = false) as Hz by (apply Z.ltb_ge; exact E2).
  rewrite Hq, Hz in E. rewrite E in H. injection H as <- _.
  repeat split; assumption.
Qed.

Lemma normal_Raise loc scale size s e :
  normal loc scale size s = Raise e -> e = ValueError.
Proof.
  unfold normal.
  destruct (Qltb scale 0); [intros H; injection H as <-; reflexivity|].
  destruct (size <? 0)%Z; [intros H; injection H as <-; reflexivity|].
  destruct (gauss_n_returns (Z.to_nat size) s) as (zs & s' & E & _).
  unfold bind. rewrite E. discriminate.
Qed.

Lemma linspace_Raise start stop num e :
  linspace start stop num = Raise e -> e = ValueError /\ (num < 0)%Z.
Proof.
  unfold linspace. destruct (Z.ltb_spec num 0) as [Hn|Hn]; [|discriminate].
  intros H. injection H as <-. split; [reflexivity|assumption].
Qed.

Lemma _generate_midpath_Raise self row n s e :
  _generate_midpath self row n s = Raise e -> e = ValueError.
Proof.
  unfold _generate_midpath. intros H.
  apply bind_Raise in H. destruct H as [H|(path & s1 & _ & H)].
  { apply lift_Raise, linspace_Raise in H. tauto. }
  apply bind_Raise in H. destruct H as [H|(noise & s2 & _ & H)].
  { exact (normal_Raise _ _ _ _ _ H). }
  apply bind_Raise in H. destruct H as [H|(ramp & s3 & _ & H)].
  { apply lift_Raise, linspace_Raise in H. tauto. }
  discriminate.
Qed.

Lemma _allocate_volumes_Ok self V n s vols s' :
  _allocate_volumes self V n s = Ok (vols, s') ->
  0 <= vol_noise self /\ length vols = Z.to_nat n.
Proof.
  unfold _allocate_volumes. intros H.
  apply bind_Ok in H. destruct H as (draws & s1 & Hd & H).
  apply ret_Ok in H. destruct H as [-> _].
  apply normal_Ok in Hd. destruct Hd as (Hv & _ & L).
  split; [exact Hv|]. rewrite !length_map. exact L.
Qed.

Lemma _allocate_volumes_Raise self V n s e :
  _allocate_volumes self V n s = Raise e -> e = ValueError.
Proof.
  unfold _allocate_volumes. intros H.
  apply bind_Raise in H. destruct H as [H|(draws & s1 & _ & H)].
  - exact (normal_Raise _ _ _ _ _ H).
  - discriminate.
Qed.

Lemma _generate_spread_Raise self mid s e :
  _generate_spread self mid s = Raise e -> e = ValueError.
Proof.
  unfold _generate_spread, normal1, bind, gauss, ret, throw.
  destruct (Qltb (spread_vol self) 0).
  - intros H. injection H as <-. reflexivity.
  - destruct (legacy_gauss s). discriminate.
Qed.

Lemma tick_body_Raise self ts row dt mids vols i s e :
  (i < length mids)%nat -> (i < length vols)%nat ->
  tick_body self ts row dt mids vols i s = Raise e -> e = ValueError.
Proof.
  intros Hm Hv. unfold tick_body.
  destruct (nth_error mids i) as [mid|] eqn:Em;
    [|apply nth_error_None in Em; lia].
  destruct (nth_error vols i) as [vol|] eqn:Ev;
    [|apply nth_error_None in Ev; lia].
  intros H.
  apply bind_Raise in H. destruct H as [H|(m & s1 & _ & H)].
  { apply lift_Raise in H. unfold getitem in H. rewrite Em in H.
    discriminate. }
  apply bind_Raise in H. destruct H as [H|([b a] & s2 & _ & H)].
  { exact (_generate_spread_Raise _ _ _ _ H). }
  apply bind_Raise in H. destruct H as [H|(sd & s3 & _ & H)].
  { unfold choice_side, bind, sample, ret in H.
    destruct (random_sample s2). discriminate. }
  apply bind_Raise in H. destruct H as [H|(tp & s4 & _ & H)].
  { destruct sd; unfold uniform, bind, sample, ret in H;
      destruct (random_sample s3); discriminate. }
  apply bind_Raise in H. destruct H as [H|(v & s5 & _ & H)].
  { apply lift_Raise in H. unfold getitem in H. rewrite Ev in H.
    discriminate. }
  discriminate.
Qed.

Lemma tick_loop_Raise self ts row dt mids vols idx s e :
  Forall (fun i => (i < length mids)%nat /\ (i < length vols)%nat) idx ->
  tick_loop self ts row dt mids vols idx s = Raise e -> e = ValueError.
Proof.
  intros Hidx. revert s. induction Hidx as [|i idx [Hm Hv] _ IH]; intros s H.
  - discriminate.
  - cbn [tick_loop] in H.
    apply bind_Raise in H. destruct H as [H|(t & s1 & _ & H)].
    { exact (tick_body_Raise _ _ _ _ _ _ _ _ _ Hm Hv H). }
    apply bind_Raise in H. destruct H as [H|(more & s2 & _ & H)].
    { exact (IH _ H). }
    discriminate.
Qed.

Lemma candle_ticks_Raise self ts row n s e :
  candle_ticks self ts row n s = Raise e ->
  e = ValueError \/ (e = ZeroDivisionError /\ n = 0%Z).
Proof.
  unfold candle_ticks. intros H.
  apply bind_Raise in H. destruct H as [H|(mids & s1 & Hm & H)].
  { left. exact (_generate_midpath_Raise _ _ _ _ _ H). }
  apply bind_Raise in H. destruct H as [H|(vols & s2 & Hv & H)].
  { left. exact (_allocate_volumes_Raise _ _ _ _ _ H). }
  apply _generate_midpath_Ok in Hm. destruct Hm as (_ & _ & Lm & _).
  apply _allocate_volumes_Ok in Hv. destruct Hv as (_ & Lv).
  apply bind_Raise in H. destruct H as [H|(secs & s3 & _ & H)].
  { right. apply lift_Raise in H. unfold int_true_div in H.
    destruct (Z.eqb_spec n 0) as [Hn|Hn]; [|discriminate].
    injection H as <-. split; [reflexivity|assumption]. }
  left. refine (tick_loop_Raise _ _ _ _ _ _ _ _ _ _ H).
  apply Forall_forall. intros i Hi. apply in_seq in Hi. lia.
Qed.

Lemma candle_loop_Raise self dist k rows s e :
  match dist with
  | Some d => (k + length rows <= length d)%nat
  | None => True
  end ->
  candle_loop self dist k rows s = Raise e ->
  e = ValueError \/
  (e = ZeroDivisionError /\ dist = None /\ ticks_per_min self = 0%Z).
Proof.
  revert k s. induction rows as [|[ts row] rows IH]; intros k s Hd H.
  - discriminate.
  - cbn [candle_loop] in H.
    apply bind_Raise in H. destruct H as [H|(n & s1 & Hn & H)].
    { apply lift_Raise in H. destruct dist as [d|]; [|discriminate].
      destruct (pick_num_ticks_Some self d k) as (n & E & _);
        [simpl in Hd; lia|]. congruence. }
    apply lift_Ok in Hn. destruct Hn as [Hn ->].
    apply bind_Raise in H. destruct H as [H|(ticks & s2 & _ & H)].
    { apply candle_ticks_Raise in H. destruct H as [H|[H H0]]; [left; exact H|].
      right. subst n. destruct dist as [d|].
      - apply pick_num_ticks_Some_Ok in Hn. destruct Hn as (x & _ & Hx). lia.
      - rewrite pick_num_ticks_None in Hn. injection Hn as Hn.
        repeat split; assumption. }
    apply bind_Raise in H. destruct H as [H|(more & s3 & _ & H)];
      [|discriminate].
    apply (IH (S k) s2); [|exact H].
    destruct dist; [simpl in Hd; lia|exact I].
Qed.

Lemma schedule_Ok_length n b3_stats s dist s' :
  schedule n b3_stats s = Ok (dist, s') ->
  match dist with
  | Some d => length d = n
  | None => no_session_statistic b3_stats
  end.
Proof.
  intros H. destruct (schedule_returns n b3_stats s) as (dist' & s1 & E & Hd).
  rewrite E in H. injection H as <- _. exact Hd.
Qed.

(** X5.  The errors of [generate_ticks]: it never raises [IndexError];
    it raises [KeyError] exactly when no candle is left after [dropna];
    on a non-empty session the only errors are [ValueError] and, only
    without a session statistic and with [ticks_per_min = 0],
    [ZeroDivisionError]. *)
Theorem generate_ticks_errors self df b3_stats s :
  generate_ticks self df b3_stats s <> Raise IndexError /\
  (generate_ticks self df b3_stats s = Raise KeyError <-> dropna df = []) /\
  (forall e, generate_ticks self df b3_stats s = Raise e ->
     dropna df <> [] ->
     e = ValueError \/
     (e = ZeroDivisionError /\ ticks_per_min self = 0%Z /\
      no_session_statistic b3_stats)).
Proof.
  assert (forall e, generate_ticks self df b3_stats s = Raise e ->
            (e = KeyError /\ dropna df = []) \/
            (dropna df <> [] /\
             (e = ValueError \/
              (e = ZeroDivisionError /\ ticks_per_min self = 0%Z /\
               no_session_statistic b3_stats)))) as Hall.
  { intros e H. unfold generate_ticks in H.
    destruct (schedule_returns (length (dropna df)) b3_stats s)
      as (dist & s1 & Es & Hd).
    rewrite (bind_run _ _ _ _ _ Es) in H.
    apply bind_Raise in H. destruct H as [H|(all & s2 & Hl & H)].
    - right. split.
      + intros E. rewrite E in H. discriminate.
      + apply candle_loop_Raise in H.
        * destruct H as [H|(H1 & H2 & H3)]; [left; exact H|].
          right. subst dist. repeat split; assumption.
        * destruct dist; [simpl; lia|exact I].
    - apply lift_Raise in H. rewrite sort_values_DataFrame in H.
      destruct all as [|t all]; [|discriminate]. injection H as <-.
      left. split; [reflexivity|].
      destruct (dropna df) as [|r rows] eqn:E; [reflexivity|].
      exfalso. refine (candle_loop_nonempty _ _ _ _ _ _ _ _ Hl eq_refl).
      discriminate. }
  split; [|split].
  - intros H. destruct (Hall _ H) as [[H1 _]|[_ [H1|[H1 _]]]]; discriminate.
  - split.
    + intros H. destruct (Hall _ H) as [[_ H1]|[_ [H1|[H1 _]]]];
        [exact H1|discriminate|discriminate].
    + intros E. unfold generate_ticks. rewrite E.
      destruct (schedule_returns (length (@nil (Z * Row))) b3_stats s)
        as (dist & s1 & Es & _).
      rewrite (bind_run _ _ _ _ _ Es). reflexivity.
  - intros e H Hne. destruct (Hall _ H) as [[_ H1]|[_ H1]];
      [contradiction|exact H1].
Qed.

(** ** When a frame is returned *)

Lemma candle_ticks_Ok_config self ts row n s ticks s' :
  candle_ticks self ts row n s = Ok (ticks, s') ->
  0 <= spread_vol self /\ 0 <= vol_noise self.
Proof.
  intros H. pose proof H as H'. apply candle_ticks_Ok in H'.
  destruct H' as (Hn & _ & mids & vols & _ & F).
  unfold candle_ticks in H.
  apply bind_Ok in H. destruct H as (mids' & s1 & _ & H).
  apply bind_Ok in H. destruct H as (vols' & s2 & Hv & _).
  apply _allocate_volumes_Ok in Hv. destruct Hv as [Hvn _].
  split; [|exact Hvn].
  destruct (Z.to_nat n) as [|k] eqn:Ek; [lia|]. simpl in F.
  inversion F as [|i t idx ticks' (s3 & s4 & Hb) _]; subst.
  unfold tick_body in Hb.
  apply bind_Ok in Hb. destruct Hb as (mid & s5 & _ & Hb).
  apply bind_Ok in Hb. destruct Hb as ([b a] & s6 & Hs & _).
  apply _generate_spread_Ok in Hs. tauto.
Qed.

(** X4.  [generate_ticks] returns a frame exactly when at least one candle
    is retained, every retained candle has low <= high, both volatilities
    are non-negative and, unless a session statistic is given,
    [ticks_per_min >= 1]. *)
Theorem generate_ticks_returns_iff self df b3_stats s :
  (exists out s', generate_ticks self df b3_stats s = Ok (out, s')) <->
  (dropna df <> [] /\ well_formed (dropna df) /\
   0 <= spread_vol self /\ 0 <= vol_noise self /\
   (no_session_statistic b3_stats -> (1 <= ticks_per_min self)%Z)).
Proof.
  split.
  - intros (out & s' & H). apply generate_ticks_Ok in H.
    destruct H as (dist & s1 & all & Hs & Hl & Hne & _).
    assert (dropna df <> []) as Hrows.
    { intros E. rewrite E in Hl. apply ret_Ok in Hl. destruct Hl as [-> _].
      congruence. }
    split; [exact Hrows|].
    pose proof (candle_loop_Ok _ _ _ _ _ _ _ Hl) as (parts & _ & F).
    split; [|split; [|split]].
    + unfold well_formed. clear - F.
      induction F as [|r p rows parts (k' & s1 & s2 & _ & Hc) _ IH];
        constructor; [|exact IH].
      apply candle_ticks_Ok in Hc. tauto.
    + destruct F as [|r p rows parts (k' & s2 & s3 & _ & Hc) _]; [congruence|].
      apply candle_ticks_Ok_config in Hc. tauto.
    + destruct F as [|r p rows parts (k' & s2 & s3 & _ & Hc) _]; [congruence|].
      apply candle_ticks_Ok_config in Hc. tauto.
    + intros Hno. rewrite (schedule_no_statistic _ _ _ Hno) in Hs.
      injection Hs as <- <-. apply candle_loop_length in Hl. tauto.
  - intros (Hne & Hwf & Hsv & Hvn & Htpm).
    apply generate_ticks_returns; assumption.
Qed.

(** ** Order of the returned frame *)

Lemma insert_by_time_perm t l : Permutation (t :: l) (insert_by_time t l).
Proof.
  induction l as [|u l IH]; simpl; [reflexivity|].
  destruct (timestamp t <=? timestamp u)%Z; [reflexivity|].
  rewrite perm_swap. apply perm_skip. exact IH.
Qed.

Lemma sort_by_time_perm l : Permutation l (sort_by_time l).
Proof.
  induction l as [|t l IH]; simpl; [constructor|].
  rewrite <- insert_by_time_perm. apply perm_skip. exact IH.
Qed.

Lemma insert_by_time_ascending t l :
  Sorted (fun a b => (timestamp a <= timestamp b)%Z) l ->
  Sorted (fun a b => (timestamp a <= timestamp b)%Z) (insert_by_time t l).
Proof.
  induction 1 as [|u l Hs IH Hu]; simpl.
  - repeat constructor.
  - destruct (Z.leb_spec (timestamp t) (timestamp u)) as [Hle|Hgt].
    + constructor; [constructor; assumption|]. constructor. exact Hle.
    + constructor; [exact IH|].
      destruct l as [|v l]; simpl.
      * constructor. lia.
      * inversion Hu; subst.
        destruct (timestamp t <=? timestamp v)%Z; constructor; lia.
Qed.

Lemma sort_by_time_ascending l :
  Sorted (fun a b => (timestamp a <= timestamp b)%Z) (sort_by_time l).
Proof.
  induction l as [|t l IH]; simpl; [constructor|].
  apply insert_by_time_ascending. exact IH.
Qed.

(** X6.  Whatever the order, spacing or overlap of the input candles, the
    frame [generate_ticks] returns is in ascending timestamp order, holds
    exactly the ticks the loop generated (a permutation of [all_ticks]) and
    has the six tick columns. *)
Theorem returned_frame_sorted self df b3_stats s out s' :
  generate_ticks self df b3_stats s = Ok (out, s') ->
  Sorted (fun a b => (timestamp a <= timestamp b)%Z) (records out) /\
  columns out =
    ["timestamp"; "bid"; "ask"; "trade_price"; "volume"; "side"]%string /\
  exists dist s1 all_ticks,
    candle_loop self dist 0 (dropna df) s1 = Ok (all_ticks, s') /\
    Permutation all_ticks (records out).
Proof.
  unfold generate_ticks. intros H.
  apply bind_Ok in H. destruct H as (dist & s1 & _ & H).
  apply bind_Ok in H. destruct H as (all & s2 & Hl & H).
  apply lift_Ok in H. destruct H as [H ->].
  rewrite sort_values_DataFrame in H.
  destruct all as [|t all]; [discriminate|]. injection H as <-.
  split; [exact (sort_by_time_ascending (t :: all))|].
  split; [reflexivity|].
  exists dist, s1, (t :: all).
  split; [exact Hl|exact (sort_by_time_perm (t :: all))].
Qed.

End Outcomes.

Lemma returned_frame_sorted_witness :
  exists out s',
    @generate_ticks calm (default_generator 2)
      [((t0930 + 30000000000)%Z, example_raw); (t0930, example_raw)] None
      seeded = Ok (out, s') /\
    Sorted (fun a b => (timestamp a <= timestamp b)%Z) (records out) /\
    columns out =
      ["timestamp"; "bid"; "ask"; "trade_price"; "volume"; "side"]%string /\
    exists dist s1 all_ticks,
      @candle_loop calm (default_generator 2) dist 0
        (dropna [((t0930 + 30000000000)%Z, example_raw); (t0930, example_raw)])
        s1 = Ok (all_ticks, s') /\
      Permutation all_ticks (records out).
Proof.
  eexists _, _. split; [vm_compute; reflexivity|].
  eapply (@returned_frame_sorted calm (default_generator 2) _ None seeded).
  vm_compute. reflexivity.
Defined.

Section Composition.

Context {np : NumPy}.

(** ** What the result does not depend on *)

Lemma bind_congr {A B} (m m' : M A) (f g : A -> M B) s :
  m s = m' s -> (forall a s1, f a s1 = g a s1) ->
  bind m f s = bind m' g s.
Proof.
  intros Hm Hf. unfold bind. rewrite Hm.
  destruct (m' s) as [[a s1]|e]; [apply Hf|reflexivity].
Qed.

Lemma tick_loop_config a b sm sv vn tw sd sd' ts row dt mids vols idx s :
  tick_loop {| ticks_per_min := a; spread_mean := sm; spread_vol := sv;
               vol_noise := vn; trend_weight := tw; seed := sd |}
    ts row dt mids vols idx s =
  tick_loop {| ticks_per_min := b; spread_mean := sm; spread_vol := sv;
               vol_noise := vn; trend_weight := tw; seed := sd' |}
    ts row dt mids vols idx s.
Proof.
  revert s. induction idx as [|i idx IH]; intros s; [reflexivity|].
  cbn [tick_loop]. apply bind_congr; [reflexivity|]. intros t s1.
  apply bind_congr; [apply IH|reflexivity].
Qed.

Lemma candle_ticks_config a b sm sv vn tw sd sd' ts row n s :
  candle_ticks {| ticks_per_min := a; spread_mean := sm; spread_vol := sv;
                  vol_noise := vn; trend_weight := tw; seed := sd |}
    ts row n s =
  candle_ticks {| ticks_per_min := b; spread_mean := sm; spread_vol := sv;
                  vol_noise := vn; trend_weight := tw; seed := sd' |}
    ts row n s.
Proof.
  unfold candle_ticks.
  apply bind_congr; [reflexivity|]. intros mids s1.
  apply bind_congr; [reflexivity|]. intros vols s2.
  apply bind_congr; [reflexivity|]. intros secs s3.
  apply tick_loop_config.
Qed.

Lemma candle_loop_config a b sm sv vn tw sd sd' d k rows s :
  candle_loop {| ticks_per_min := a; spread_mean := sm; spread_vol := sv;
                 vol_noise := vn; trend_weight := tw; seed := sd |}
    (Some d) k rows s =
  candle_loop {| ticks_per_min := b; spread_mean := sm; spread_vol := sv;
                 vol_noise := vn; trend_weight := tw; seed := sd' |}
    (Some d) k rows s.
Proof.
  revert k s. induction rows as [|[ts row] rows IH]; intros k s;
    [reflexivity|].
  cbn [candle_loop]. apply bind_congr; [reflexivity|]. intros n s1.
  apply bind_congr; [apply candle_ticks_config|]. intros ticks s2.
  apply bind_congr; [apply IH|reflexivity].
Qed.

Lemma schedule_statistic_bind {B} n b3_stats T (f : option (list Q) -> M B) s :
  session_statistic b3_stats T ->
  bind (schedule n b3_stats) f s =
  bind (_calculate_intraday_distribution n T) (fun d => f (Some d)) s.
Proof.
  intros H. unfold bind at 1. rewrite (schedule_statistic _ _ _ _ H).
  unfold bind.
  destruct (_calculate_intraday_distribution n T s) as [[d s1]|e];
    reflexivity.
Qed.

(** X7.  When [b3_stats] carries ['totneg'], [ticks_per_min] (and the
    stored seed) have no influence: two generators that agree on the other
    four parameters give the same result, frame or error, and leave the
    stream in the same state. *)
Theorem ticks_per_min_unused_under_statistic self1 self2 df b3_stats T s :
  session_statistic b3_stats T -> same_but_tick_count self1 self2 ->
  generate_ticks self1 df b3_stats s = generate_ticks self2 df b3_stats s.
Proof.
  intros Hstat (H1 & H2 & H3 & H4).
  destruct self1 as [a sm sv vn tw sd], self2 as [b sm' sv' vn' tw' sd'].
  simpl in H1, H2, H3, H4. subst sm' sv' vn' tw'.
  unfold generate_ticks.
  rewrite !(schedule_statistic_bind _ _ T _ _ Hstat).
  apply bind_congr; [reflexivity|]. intros d s1.
  apply bind_congr; [apply candle_loop_config|reflexivity].
Qed.

Lemma dropna_app df1 df2 : dropna (df1 ++ df2) = dropna df1 ++ dropna df2.
Proof.
  induction df1 as [|[ts r] df1 IH]; [reflexivity|].
  simpl. destruct (complete r); [simpl; f_equal|]; exact IH.
Qed.

(** X8.  A row with a missing OHLCV cell has no effect wherever it stands in
    the input: the result, an error included, and the state the stream is
    left in are those of the input without that row. *)
Theorem incomplete_row_ignored self before ts r after b3_stats s :
  complete r = None ->
  generate_ticks self (before ++ (ts, r) :: after) b3_stats s =
  generate_ticks self (before ++ after) b3_stats s.
Proof.
  intros H. unfold generate_ticks.
  rewrite !dropna_app. cbn [dropna]. rewrite H. reflexivity.
Qed.

(** ** Volumes of one candle *)




(** ** The trade price *)

Lemma tick_body_trade self ts row dt mids vols i s t s' :
  tick_body self ts row dt mids vols i s = Ok (t, s') ->
  exists q s3,
    match side t with buy => ask t | sell => bid t end = round4 q /\
    trade_price t =
      round4 (q * ((999 # 1000)
                   + ((1001 # 1000) - (999 # 1000)) * fst (random_sample s3))).
Proof.
  unfold tick_body. intros H.
  apply bind_Ok in H. destruct H as (mid & s1 & _ & H).
  apply bind_Ok in H. destruct H as ([b a] & s2 & _ & H).
  apply bind_Ok in H. destruct H as (sd & s3 & _ & H).
  apply bind_Ok in H. destruct H as (tp & s4 & Ht & H).
  apply bind_Ok in H. destruct H as (vol & s5 & _ & H).
  apply ret_Ok in H. destruct H as [-> _].
  cbn [side ask bid trade_price].
  destruct sd; unfold uniform, bind, sample, ret in Ht.
  - exists a, s3. destruct (random_sample s3) as [u s6].
    injection Ht as <- _. split; reflexivity.
  - exists b, s3. destruct (random_sample s3) as [u s6].
    injection Ht as <- _. split; reflexivity.
Qed.

(** X10.  When the uniform deviates lie in [0, 1), the trade price of every
    returned tick is the rounded product of the unrounded quote [q] of its
    side (ask for a buy, bid for a sell) and a factor between 0.999 and
    1.001: it lies between [round4 (0.999 q)] and [round4 (1.001 q)]. *)
Theorem trade_price_band self df b3_stats s out s' :
  (forall st, 0 <= fst (random_sample st) < 1) ->
  generate_ticks self df b3_stats s = Ok (out, s') ->
  Forall (fun t => exists q,
            match side t with buy => ask t | sell => bid t end = round4 q /\
            (0 <= q ->
             round4 (q * (999 # 1000)) <= trade_price t
             <= round4 (q * (1001 # 1000))) /\
            (q <= 0 ->
             round4 (q * (1001 # 1000)) <= trade_price t
             <= round4 (q * (999 # 1000))))
         (records out).
Proof.
  intros Hu. apply generate_ticks_Forall.
  intros ts row dt mids vols i s1 t s2 _ _ Hb.
  apply tick_body_trade in Hb. destruct Hb as (q & s3 & Hq & Ht).
  exists q. split; [exact Hq|]. rewrite Ht.
  specialize (Hu s3). revert Hu. generalize (fst (random_sample s3)).
  intros u [Hu0 Hu1].
  split; intros Hq0; split; apply round4_mono; nra.
Qed.

End Composition.

Lemma ticks_per_min_unused_witness :
  @generate_ticks calm (default_generator 0) two_candles
    (Some [("totneg"%string, 900%Z)]) seeded =
  @generate_ticks calm (default_generator 120) two_candles
    (Some [("totneg"%string, 900%Z)]) seeded.
Proof.
  apply (@ticks_per_min_unused_under_statistic calm (default_generator 0)
           (default_generator 120) two_candles
           (Some [("totneg"%string, 900%Z)]) 900 seeded).
  - eexists _, _. split; reflexivity.
  - repeat split.
Defined.

Lemma incomplete_row_ignored_witness :
  @generate_ticks calm (default_generator 120)
    ([(t0930, example_raw)]
     ++ ((t0930 + 60000000000)%Z, incomplete_raw)
        :: [((t0930 + 120000000000)%Z, example_raw)]) None seeded =
  @generate_ticks calm (default_generator 120)
    ([(t0930, example_raw)] ++ [((t0930 + 120000000000)%Z, example_raw)])
    None seeded.
Proof.
  apply (@incomplete_row_ignored calm (default_generator 120)
           [(t0930, example_raw)] (t0930 + 60000000000)%Z incomplete_raw
           [((t0930 + 120000000000)%Z, example_raw)] None seeded).
  reflexivity.
Defined.


Lemma trade_price_band_witness :
  exists out s',
    @generate_ticks calm (default_generator 3) one_candle None seeded
    = Ok (out, s') /\
    Forall (fun t => exists q,
              match side t with buy => ask t | sell => bid t end = round4 q /\
              (0 <= q ->
               round4 (q * (999 # 1000)) <= trade_price t
               <= round4 (q * (1001 # 1000))) /\
              (q <= 0 ->
               round4 (q * (1001 # 1000)) <= trade_price t
               <= round4 (q * (999 # 1000))))
           (records out).
Proof.
  eexists _, _. split; [vm_compute; reflexivity|].
  eapply (@trade_price_band calm (default_generator 3) one_candle None seeded).
  - intros [z [|n]]; vm_compute; split; congruence.
  - vm_compute. reflexivity.
Defined.

(** * Properties of the ticker selection *)

Lemma idxmin_In distance df r : idxmin distance df = Some r -> In r df.
Proof.
  revert r. induction df as [|x df IH]; intros r H; [discriminate|].
  simpl in H. destruct (idxmin distance df) as [r'|].
  - destruct (Qltb (distance r') (distance x)); injection H as <-.
    + right. apply IH. reflexivity.
    + left. reflexivity.
  - injection H as <-. left. reflexivity.
Qed.

Lemma idxmin_nonempty distance df :
  df <> [] -> exists r, idxmin distance df = Some r.
Proof.
  destruct df as [|x df]; [congruence|]. intros _. simpl.
  destruct (idxmin distance df) as [r'|]; [|eexists; reflexivity].
  destruct (Qltb (distance r') (distance x)); eexists; reflexivity.
Qed.

Lemma idxmin_least distance df r :
  idxmin distance df = Some r ->
  forall x, In x df -> distance r <= distance x.
Proof.
  revert r. induction df as [|y df IH]; intros r H x Hx; [contradiction|].
  simpl in H. destruct (idxmin distance df) as [r'|] eqn:E.
  - specialize (IH r' eq_refl).
    destruct (Qltb (distance r') (distance y)) eqn:C; injection H as <-.
    + apply Qltb_true in C. destruct Hx as [<-|Hx]; [lra|exact (IH x Hx)].
    + apply Qltb_false in C. destruct Hx as [<-|Hx]; [lra|].
      specialize (IH x Hx). lra.
  - injection H as <-. destruct df as [|z df].
    + destruct Hx as [<-|[]]. lra.
    + destruct (idxmin_nonempty distance (z :: df)) as (w & Hw);
        [discriminate|congruence].
Qed.

Lemma other_tickers_In c df r :
  In r (filter (fun r => negb (String.eqb (ticker r) (ticker c))) df) <->
  In r df /\ ticker r <> ticker c.
Proof.
  rewrite filter_In, negb_true_iff, String.eqb_neq. reflexivity.
Qed.

Lemma other_tickers_NoDup c df :
  NoDup (map ticker df) ->
  NoDup (map ticker
           (filter (fun r => negb (String.eqb (ticker r) (ticker c))) df)).
Proof.
  induction df as [|x df IH]; intros H; [constructor|].
  simpl in H. inversion H as [|? ? Hx Hd]; subst. simpl.
  destruct (String.eqb (ticker x) (ticker c)); simpl; [exact (IH Hd)|].
  constructor; [|exact (IH Hd)].
  intros Hin. apply Hx. apply in_map_iff in Hin.
  destruct Hin as (y & Ey & Hy). apply filter_In in Hy.
  apply in_map_iff. exists y. tauto.
Qed.

Lemma other_tickers_length c df :
  NoDup (map ticker df) -> In c df ->
  length (filter (fun r => negb (String.eqb (ticker r) (ticker c))) df) =
  pred (length df).
Proof.
  induction df as [|x df IH]; intros H Hc; [contradiction|].
  simpl in H. inversion H as [|? ? Hx Hd]; subst. simpl.
  destruct (String.eqb_spec (ticker x) (ticker c)) as [E|N]; simpl.
  - assert (forall l, ~ In (ticker c) (map ticker l) ->
              filter (fun r => negb (String.eqb (ticker r) (ticker c))) l = l)
      as Hall.
    { induction l as [|y l IHl]; intros Hn; [reflexivity|]. simpl in *.
      destruct (String.eqb_spec (ticker y) (ticker c)) as [E'|N'].
      - exfalso. apply Hn. left. exact E'.
      - simpl. f_equal. apply IHl. tauto. }
    rewrite Hall; [reflexivity|]. rewrite <- E. exact Hx.
  - destruct Hc as [->|Hc]; [congruence|].
    rewrite (IH Hd Hc). destruct df; [contradiction|reflexivity].
Qed.

(** What the selection loop returns on a frame of distinct tickers with at
    least as many rows as targets. *)
Lemma select_loop_picks targets df selected :
  NoDup (map ticker df) -> (length targets <= length df)%nat ->
  exists picked,
    select_loop targets df selected = Ok (selected ++ picked) /\
    length picked = length targets /\
    NoDup picked /\
    (forall t, In t picked -> In t (map ticker df)) /\
    (forall j t, nth_error picked j = Some t ->
       exists r target,
         In r df /\ ticker r = t /\ nth_error targets j = Some target /\
         forall r', In r' df -> ~ In (ticker r') (firstn j picked) ->
           Qabs (percentile r - target) <= Qabs (percentile r' - target)).
Proof.
  revert df selected.
  induction targets as [|target targets IH]; intros df selected Hnd Hlen.
  - exists []. rewrite app_nil_r. repeat split; try constructor.
    + intros t [].
    + intros [|j] t H; discriminate.
  - simpl in Hlen. assert (df <> []) as Hne by (destruct df; [simpl in Hlen; lia|discriminate]).
    destruct (idxmin_nonempty
                (fun r => Qabs (percentile r - target)) df Hne) as (c & Ec).
    pose proof (idxmin_In _ _ _ Ec) as Hc.
    pose proof (idxmin_least _ _ _ Ec) as Hmin.
    set (df' := filter (fun r => negb (String.eqb (ticker r) (ticker c))) df).
    destruct (IH df' (selected ++ [ticker c])) as (picked & E & L & Hp & Hincl & Hopt).
    { apply other_tickers_NoDup. exact Hnd. }
    { unfold df'. rewrite (other_tickers_length c df Hnd Hc). lia. }
    exists (ticker c :: picked). cbn [select_loop]. rewrite Ec.
    fold df'. rewrite E, <- app_assoc. split; [reflexivity|].
    split; [simpl; congruence|]. split; [|split].
    + constructor; [|exact Hp]. intros Hin. apply Hincl in Hin.
      apply in_map_iff in Hin. destruct Hin as (y & Ey & Hy).
      apply other_tickers_In in Hy. tauto.
    + intros t [<-|Hin]; [apply in_map; exact Hc|].
      apply Hincl in Hin. apply in_map_iff in Hin.
      destruct Hin as (y & Ey & Hy). apply other_tickers_In in Hy.
      apply in_map_iff. exists y. tauto.
    + intros [|j] t Hj.
      * injection Hj as <-. exists c, target. repeat split; try assumption.
        intros r' Hr' _. exact (Hmin r' Hr').
      * simpl in Hj. destruct (Hopt j t Hj) as (r & tg & Hr & Et & Htg & Hbest).
        apply other_tickers_In in Hr. exists r, tg.
        split; [tauto|]. split; [exact Et|]. split; [exact Htg|].
        intros r' Hr' Hnot. apply Hbest.
        -- apply other_tickers_In. split; [exact Hr'|].
           intros Eq. apply Hnot. left. symmetry. exact Eq.
        -- intros Hin. apply Hnot. right. exact Hin.
Qed.

Lemma isin_In x l : isin x l = true <-> In x l.
Proof.
  unfold isin. rewrite existsb_exists. split.
  - intros (y & Hy & E). apply String.eqb_eq in E. subst. exact Hy.
  - intros H. exists x. split; [exact H|apply String.eqb_refl].
Qed.

Lemma available_In df ex r :
  In r (available df ex) <-> In r df /\ ~ In (ticker r) ex.
Proof.
  unfold available. rewrite filter_In, negb_true_iff.
  rewrite <- isin_In. destruct (isin (ticker r) ex); intuition congruence.
Qed.

Lemma available_NoDup df ex :
  NoDup (map ticker df) -> NoDup (map ticker (available df ex)).
Proof.
  induction df as [|x df IH]; intros H; [constructor|].
  simpl in H. inversion H as [|? ? Hx Hd]; subst. unfold available. simpl.
  destruct (isin (ticker x) ex); simpl; [exact (IH Hd)|].
  constructor; [|exact (IH Hd)].
  intros Hin. apply Hx. apply in_map_iff in Hin.
  destruct Hin as (y & Ey & Hy). apply filter_In in Hy.
  apply in_map_iff. exists y. tauto.
Qed.

Lemma available_nothing df : available df [] = df.
Proof.
  unfold available. induction df as [|x df IH]; [reflexivity|].
  simpl. f_equal. exact IH.
Qed.

(** The frame [select_by_percentiles] works on after the exclusion. *)
Lemma select_by_percentiles_unfold liquidity_df num_tickers exclude_tickers :
  select_by_percentiles liquidity_df num_tickers exclude_tickers =
  let df := available liquidity_df (excluded exclude_tickers) in
  if (Z.of_nat (length df) <? num_tickers)%Z then Ok (map ticker df)
  else
    match linspace 10 90 num_tickers with
    | Raise e => Raise e
    | Ok percentiles => select_loop percentiles df []
    end.
Proof.
  unfold select_by_percentiles, excluded.
  destruct exclude_tickers as [[|e ex]|]; try reflexivity;
    cbn zeta; rewrite available_nothing; reflexivity.
Qed.

Lemma select_by_percentiles_size liquidity_df num_tickers exclude_tickers :
  NoDup (map ticker liquidity_df) ->
  let df := available liquidity_df (excluded exclude_tickers) in
  ((num_tickers < 0)%Z ->
   select_by_percentiles liquidity_df num_tickers exclude_tickers
   = Raise ValueError) /\
  ((0 <= num_tickers)%Z ->
   exists selected,
     select_by_percentiles liquidity_df num_tickers exclude_tickers
     = Ok selected /\
     Z.of_nat (length selected) = Z.min num_tickers (Z.of_nat (length df)) /\
     NoDup selected /\
     (forall t, In t selected ->
        In t (map ticker liquidity_df) /\
        ~ In t (excluded exclude_tickers)) /\
     ((Z.of_nat (length df) < num_tickers)%Z -> selected = map ticker df)).
Proof.
  intros Hnd df. rewrite select_by_percentiles_unfold. fold df. cbn zeta.
  pose proof (available_NoDup liquidity_df (excluded exclude_tickers) Hnd)
    as Hnd'. fold df in Hnd'.
  assert (forall t, In t (map ticker df) ->
            In t (map ticker liquidity_df) /\
            ~ In t (excluded exclude_tickers)) as Hav.
  { intros t Ht. apply in_map_iff in Ht. destruct Ht as (r & <- & Hr).
    apply available_In in Hr. split; [apply in_map; tauto|tauto]. }
  split.
  - intros Hneg.
    assert ((Z.of_nat (length df) <? num_tickers)%Z = false) as ->
      by (apply Z.ltb_ge; lia).
    rewrite (linspace_raises _ _ _ Hneg). reflexivity.
  - intros Hn.
    destruct (Z.ltb_spec (Z.of_nat (length df)) num_tickers) as [Hlt|Hge].
    + exists (map ticker df). split; [reflexivity|].
      split; [rewrite length_map; lia|]. split; [exact Hnd'|].
      split; [exact Hav|reflexivity].
    + destruct (linspace_returns 10 90 num_tickers Hn) as (targets & El & Ll).
      rewrite El.
      destruct (select_loop_picks targets df [] Hnd')
        as (picked & E & L & Hp & Hincl & _); [lia|].
      exists picked. split; [exact E|]. split; [lia|]. split; [exact Hp|].
      split; [|lia]. intros t Ht. apply Hav, Hincl, Ht.
Qed.

(** X11.  On a frame of distinct tickers, [select_by_percentiles] raises
    [ValueError] for a negative [num_tickers]; otherwise it returns
    [min(num_tickers, available rows)] tickers of the frame, none of them
    excluded and none twice, and when fewer rows are available than
    requested these are all available tickers in frame order. *)
Theorem selection_size liquidity_df num_tickers exclude_tickers :
  NoDup (map ticker liquidity_df) ->
  let df := available liquidity_df (excluded exclude_tickers) in
  ((num_tickers < 0)%Z ->
   select_by_percentiles liquidity_df num_tickers exclude_tickers
   = Raise ValueError) /\
  ((0 <= num_tickers)%Z ->
   exists selected,
     select_by_percentiles liquidity_df num_tickers exclude_tickers
     = Ok selected /\
     Z.of_nat (length selected) = Z.min num_tickers (Z.of_nat (length df)) /\
     NoDup selected /\
     (forall t, In t selected ->
        In t (map ticker liquidity_df) /\
        ~ In t (excluded exclude_tickers)) /\
     ((Z.of_nat (length df) < num_tickers)%Z -> selected = map ticker df)).
Proof.
  intros Hnd. apply select_by_percentiles_size. exact Hnd.
Qed.

Lemma linspace_nth start stop num targets j target :
  linspace start stop num = Ok targets ->
  nth_error targets j = Some target ->
  (Z.of_nat j < num)%Z /\
  target == start
            + inject_Z (Z.of_nat j) * ((stop - start) / inject_Z (num - 1)).
Proof.
  unfold linspace. destruct (Z.ltb_spec num 0) as [Hn|Hn]; [discriminate|].
  intros H. injection H as <-. intros Hj.
  rewrite nth_error_map in Hj.
  destruct (nth_error (seq 0 (Z.to_nat num)) j) as [i|] eqn:Ei;
    [|discriminate].
  assert (j < Z.to_nat num)%nat as Hlt.
  { assert (nth_error (seq 0 (Z.to_nat num)) j <> None) as Hnn by congruence.
    apply nth_error_Some in Hnn. rewrite length_seq in Hnn. exact Hnn. }
  rewrite nth_error_seq in Ei.
  assert (i = j) as ->.
  { destruct (Nat.ltb_spec j (Z.to_nat num)); [|lia].
    injection Ei as <-. reflexivity. }
  simpl in Hj. injection Hj as <-. split; [lia|].
  destruct (Z.ltb_spec 0 (num - 1)) as [Hd|Hd]; [ring|].
  assert (j = 0%nat) as -> by lia. simpl. change (inject_Z 0) with 0. ring.
Qed.

(** X12.  Each ticker [select_by_percentiles] picks is a best match for its
    target: the [j]-th pick (from 0) belongs to an available row whose
    percentile is at least as close to [10 + j * 80 / (num_tickers - 1)]
    as that of every available row not picked before it. *)
Theorem selection_closest liquidity_df num_tickers exclude_tickers selected :
  NoDup (map ticker liquidity_df) ->
  let df := available liquidity_df (excluded exclude_tickers) in
  (num_tickers <= Z.of_nat (length df))%Z ->
  select_by_percentiles liquidity_df num_tickers exclude_tickers
  = Ok selected ->
  forall j t, nth_error selected j = Some t ->
    exists r,
      In r df /\ ticker r = t /\
      let target :=
        10 + inject_Z (Z.of_nat j) * (80 / inject_Z (num_tickers - 1)) in
      forall r', In r' df -> ~ In (ticker r') (firstn j selected) ->
        Qabs (percentile r - target) <= Qabs (percentile r' - target).
Proof.
  intros Hnd df Hle H j t Hj. rewrite select_by_percentiles_unfold in H.
  fold df in H. cbn zeta in H.
  assert ((Z.of_nat (length df) <? num_tickers)%Z = false) as Hb
    by (apply Z.ltb_ge; exact Hle).
  rewrite Hb in H.
  destruct (linspace 10 90 num_tickers) as [targets|e] eqn:El;
    [|discriminate].
  pose proof (available_NoDup liquidity_df (excluded exclude_tickers) Hnd)
    as Hnd'. fold df in Hnd'.
  assert (length targets = Z.to_nat num_tickers) as Ll.
  { destruct (Z.ltb_spec num_tickers 0) as [Hn|Hn].
    - rewrite (linspace_raises _ _ _ Hn) in El. discriminate.
    - destruct (linspace_returns 10 90 num_tickers Hn) as (t' & E' & L').
      congruence. }
  destruct (select_loop_picks targets df [] Hnd')
    as (picked & E & _ & _ & _ & Hopt); [lia|].
  rewrite E in H. injection H as <-. simpl in Hj.
  destruct (Hopt j t Hj) as (r & target & Hr & Et & Htg & Hbest).
  exists r. split; [exact Hr|]. split; [exact Et|]. cbn zeta.
  intros r' Hr' Hnot.
  destruct (linspace_nth _ _ _ _ _ _ El Htg) as [_ Eq].
  assert (target == 10 + inject_Z (Z.of_nat j)
                         * (80 / inject_Z (num_tickers - 1))) as Eq'
    by (rewrite Eq; unfold Qdiv; ring).
  rewrite <- Eq'. apply Hbest; assumption.
Qed.

Lemma get_ticker_info_found liquidity_df t :
  In t (map ticker liquidity_df) ->
  exists r, get_ticker_info liquidity_df t = Some r /\ In r liquidity_df /\
            ticker r = t.
Proof.
  intros H. apply in_map_iff in H. destruct H as (x & Ex & Hx).
  unfold get_ticker_info.
  destruct (filter (fun r => String.eqb (ticker r) t) liquidity_df)
    as [|r l] eqn:E.
  - exfalso. assert (In x []) as Hin; [|contradiction].
    rewrite <- E. apply filter_In. split; [exact Hx|].
    apply String.eqb_eq. exact Ex.
  - exists r. assert (In r (r :: l)) as Hin by (left; reflexivity).
    rewrite <- E in Hin. apply filter_In in Hin. destruct Hin as [Hin Er].
    apply String.eqb_eq in Er. repeat split; assumption.
Qed.

(** [get_ticker_info] returns [None] exactly for the tickers that are
    not in the frame, and otherwise a row of the frame with that ticker:
    the first one. *)
Lemma get_ticker_info_lookup liquidity_df t :
  (get_ticker_info liquidity_df t = None <->
   ~ In t (map ticker liquidity_df)) /\
  (forall r, get_ticker_info liquidity_df t = Some r ->
     exists before after,
       liquidity_df = before ++ r :: after /\ ticker r = t /\
       ~ In t (map ticker before)).
Proof.
  split.
  - split.
    + intros H Hin. destruct (get_ticker_info_found _ _ Hin) as (r & E & _).
      congruence.
    + intros H. unfold get_ticker_info.
      destruct (filter (fun r => String.eqb (ticker r) t) liquidity_df)
        as [|r l] eqn:E; [reflexivity|].
      exfalso. apply H. assert (In r (r :: l)) as Hin by (left; reflexivity).
      rewrite <- E in Hin. apply filter_In in Hin. destruct Hin as [Hin Er].
      apply String.eqb_eq in Er. subst t. apply in_map. exact Hin.
  - unfold get_ticker_info. induction liquidity_df as [|x df IH]; intros r H;
      [discriminate|].
    simpl in H. destruct (String.eqb_spec (ticker x) t) as [E|N].
    + injection H as <-. exists [], df. repeat split; [exact E|intros []].
    + destruct (IH r H) as (before & after & -> & Er & Hb).
      exists (x :: before), after. split; [reflexivity|].
      split; [exact Er|]. simpl. intros [E|Hin]; [congruence|tauto].
Qed.

(** X13.  On a frame of distinct tickers and for [num_tickers >= 0],
    [_select_tickers] returns a list without repetition in which [^BVSP]
    comes first exactly when the frame has a [^BVSP] row, followed by
    [min(num_tickers, other rows)] other tickers, and
    [get_ticker_info] finds a row for every returned ticker. *)
Theorem pipeline_selection num_tickers liquidity_df :
  NoDup (map ticker liquidity_df) -> (0 <= num_tickers)%Z ->
  exists stocks,
    _select_tickers num_tickers liquidity_df =
      Ok (if isin "^BVSP" (map ticker liquidity_df)
          then "^BVSP"%string :: stocks else stocks) /\
    ~ In "^BVSP"%string stocks /\ NoDup stocks /\
    Z.of_nat (length stocks) =
      Z.min num_tickers
        (Z.of_nat (length (available liquidity_df ["^BVSP"%string]))) /\
    (forall t, In t stocks \/ (t = "^BVSP"%string /\
                               In t (map ticker liquidity_df)) ->
       exists r, get_ticker_info liquidity_df t = Some r /\ ticker r = t).
Proof.
  intros Hnd Hn.
  destruct (select_by_percentiles_size liquidity_df num_tickers
              (Some ["^BVSP"%string]) Hnd) as [_ Hsel].
  destruct (Hsel Hn) as (stocks & E & L & Hp & Hincl & _).
  exists stocks. unfold _select_tickers. rewrite E.
  assert (~ In "^BVSP"%string stocks) as Hnot.
  { intros Hin. apply Hincl in Hin. destruct Hin as [_ Hin]. apply Hin.
    left. reflexivity. }
  split; [|split; [exact Hnot|split; [exact Hp|split; [exact L|]]]].
  - destruct (isin "^BVSP" (map ticker liquidity_df)) eqn:Ei.
    + apply isin_In in Ei.
      destruct (get_ticker_info_found _ _ Ei) as (r & Er & _).
      unfold get_ticker_info in Er.
      destruct (filter (fun r => String.eqb (ticker r) "^BVSP") liquidity_df);
        [discriminate|reflexivity].
    + destruct (filter (fun r => String.eqb (ticker r) "^BVSP") liquidity_df)
        as [|r l] eqn:Ef; [reflexivity|].
      exfalso. assert (In r (r :: l)) as Hin by (left; reflexivity).
      rewrite <- Ef in Hin. apply filter_In in Hin. destruct Hin as [Hin Er].
      apply String.eqb_eq in Er.
      assert (isin "^BVSP" (map ticker liquidity_df) = true) as Ht.
      { apply isin_In. rewrite <- Er. apply in_map. exact Hin. }
      congruence.
  - intros t [Hin|[-> Hin]].
    + apply Hincl in Hin. destruct Hin as [Hin _].
      destruct (get_ticker_info_found _ _ Hin) as (r & Er & _ & Et).
      exists r. split; assumption.
    + destruct (get_ticker_info_found _ _ Hin) as (r & Er & _ & Et).
      exists r. split; assumption.
Qed.

Lemma selection_size_witness :
  ((2 < 0)%Z ->
   select_by_percentiles example_ranking 2 (Some ["^BVSP"%string])
   = Raise ValueError) /\
  ((0 <= 2)%Z ->
   exists selected,
     select_by_percentiles example_ranking 2 (Some ["^BVSP"%string])
     = Ok selected /\
     Z.of_nat (length selected) =
       Z.min 2 (Z.of_nat
                  (length (available example_ranking
                             (excluded (Some ["^BVSP"%string]))))) /\
     NoDup selected /\
     (forall t, In t selected ->
        In t (map ticker example_ranking) /\
        ~ In t (excluded (Some ["^BVSP"%string]))) /\
     ((Z.of_nat (length (available example_ranking
                           (excluded (Some ["^BVSP"%string])))) < 2)%Z ->
      selected =
        map ticker (available example_ranking
                      (excluded (Some ["^BVSP"%string]))))).
Proof.
  apply (selection_size example_ranking 2 (Some ["^BVSP"%string])).
  repeat constructor; simpl; intuition discriminate.
Defined.

Lemma selection_closest_witness :
  exists r,
    In r (available example_ranking (excluded (Some ["^BVSP"%string]))) /\
    ticker r = "PETR4.SA"%string /\
    let target := 10 + inject_Z (Z.of_nat 1) * (80 / inject_Z (2 - 1)) in
    forall r',
      In r' (available example_ranking
               (excluded (Some ["^BVSP"%string]))) ->
      ~ In (ticker r') (firstn 1 ["ABEV3.SA"; "PETR4.SA"]%string) ->
      Qabs (percentile r - target) <= Qabs (percentile r' - target).
Proof.
  apply (selection_closest example_ranking 2 (Some ["^BVSP"%string])
           ["ABEV3.SA"; "PETR4.SA"]%string).
  - repeat constructor; simpl; intuition discriminate.
  - vm_compute. discriminate.
  - vm_compute. reflexivity.
  - reflexivity.
Defined.

Lemma pipeline_selection_witness :
  exists stocks,
    _select_tickers 2 example_ranking =
      Ok (if isin "^BVSP" (map ticker example_ranking)
          then "^BVSP"%string :: stocks else stocks) /\
    ~ In "^BVSP"%string stocks /\ NoDup stocks /\
    Z.of_nat (length stocks) =
      Z.min 2 (Z.of_nat (length (available example_ranking
                                   ["^BVSP"%string]))) /\
    (forall t, In t stocks \/ (t = "^BVSP"%string /\
                               In t (map ticker example_ranking)) ->
       exists r, get_ticker_info example_ranking t = Some r /\ ticker r = t).
Proof.
  apply (pipeline_selection 2 example_ranking).
  - repeat constructor; simpl; intuition discriminate.
  - lia.
Defined.

(** * Properties of the ticker list and of the trading dates *)

Lemma list_remove_count x l :
  count_occ string_dec (list_remove x l) x =
    pred (count_occ string_dec l x) /\
  forall t, t <> x ->
    count_occ string_dec (list_remove x l) t = count_occ string_dec l t.
Proof.
  induction l as [|y l [IH1 IH2]]; [split; reflexivity|].
  cbn [list_remove]. destruct (String.eqb_spec y x) as [E|N].
  - subst y. split.
    + rewrite count_occ_cons_eq by reflexivity. reflexivity.
    + intros t Ht. rewrite count_occ_cons_neq by congruence. reflexivity.
  - split.
    + rewrite !count_occ_cons_neq by exact N. exact IH1.
    + intros t Ht. destruct (string_dec y t) as [E'|N'].
      * rewrite !count_occ_cons_eq by exact E'. f_equal. exact (IH2 t Ht).
      * rewrite !count_occ_cons_neq by exact N'. exact (IH2 t Ht).
Qed.

(** X14.  [fetch_tickers] returns the empty list whenever nothing was
    loaded, index or not.  Otherwise, with [include_ibov] the result
    contains [^BVSP] and every other ticker as often as loaded; without it
    exactly one occurrence of [^BVSP] is taken out (the result is free of
    [^BVSP] only if it was loaded at most once) and the other tickers are
    kept. *)
Theorem fetch_tickers_index loaded :
  (forall include_ibov, fetch_tickers [] include_ibov = []) /\
  (loaded <> [] ->
   In "^BVSP"%string (fetch_tickers loaded true) /\
   forall t, t <> "^BVSP"%string ->
     count_occ string_dec (fetch_tickers loaded true) t =
     count_occ string_dec loaded t) /\
  (count_occ string_dec (fetch_tickers loaded false) "^BVSP"%string =
     pred (count_occ string_dec loaded "^BVSP"%string) /\
   forall t, t <> "^BVSP"%string ->
     count_occ string_dec (fetch_tickers loaded false) t =
     count_occ string_dec loaded t).
Proof.
  split; [reflexivity|]. split.
  - intros Hne. destruct loaded as [|x l]; [congruence|].
    unfold fetch_tickers. cbn [andb negb].
    destruct (isin "^BVSP" (x :: l)) eqn:E; cbn [negb andb].
    + split; [apply isin_In; exact E|reflexivity].
    + split; [left; reflexivity|]. intros t Ht.
      rewrite count_occ_cons_neq by congruence. reflexivity.
  - destruct loaded as [|x l]; [split; reflexivity|].
    unfold fetch_tickers. cbn [andb negb].
    destruct (isin "^BVSP" (x :: l)) eqn:E.
    + apply list_remove_count.
    + split; [|reflexivity].
      assert (~ In "^BVSP"%string (x :: l)) as Hn.
      { intros Hin. apply isin_In in Hin. congruence. }
      apply (count_occ_not_In string_dec) in Hn. rewrite Hn. reflexivity.
Qed.

(** ** Trading dates *)

Lemma date_loop_firstn end_date days idx dates :
  (Z.of_nat (length dates) < days)%Z ->
  date_loop end_date days idx dates =
  dates ++ firstn (Z.to_nat days - length dates)
             (filter (fun d => (weekday d <? 5)%Z)
                (map (fun i => (end_date - i)%Z) idx)).
Proof.
  revert dates. induction idx as [|i idx IH]; intros dates Hlt.
  - simpl. rewrite firstn_nil, app_nil_r. reflexivity.
  - cbn [date_loop map filter].
    destruct (weekday (end_date - i) <? 5)%Z.
    + rewrite length_app. cbn [length].
      destruct (Z.leb_spec days (Z.of_nat (length dates + 1))) as [Hle|Hgt].
      * replace (Z.to_nat days - length dates)%nat with 1%nat by lia.
        reflexivity.
      * rewrite IH by (rewrite length_app; simpl; lia).
        rewrite length_app. cbn [length].
        replace (Z.to_nat days - length dates)%nat
          with (S (Z.to_nat days - (length dates + 1)))%nat by lia.
        cbn [firstn]. rewrite <- app_assoc. reflexivity.
    + destruct (Z.leb_spec days (Z.of_nat (length dates))) as [Hle|Hgt];
        [lia|]. apply IH. exact Hlt.
Qed.

Lemma insert_date_last d l :
  Forall (fun e => (e < d)%Z) l -> insert_date d l = l ++ [d].
Proof.
  induction 1 as [|e l He _ IH]; [reflexivity|].
  simpl. destruct (Z.leb_spec d e); [lia|]. rewrite IH. reflexivity.
Qed.

Lemma sorted_descending l :
  StronglySorted Z.gt l -> sorted l = rev l.
Proof.
  induction 1 as [|d l _ IH Hd]; [reflexivity|].
  simpl. rewrite IH. apply insert_date_last.
  apply Forall_rev. apply Forall_forall. intros e He.
  rewrite Forall_forall in Hd. specialize (Hd e He). lia.
Qed.

Lemma descending_filter (f : Z -> bool) l :
  StronglySorted Z.gt l -> StronglySorted Z.gt (filter f l).
Proof.
  induction 1 as [|d l _ IH Hd]; [constructor|].
  simpl. destruct (f d); [|exact IH]. constructor; [exact IH|].
  apply Forall_forall. intros e He. apply filter_In in He.
  rewrite Forall_forall in Hd. apply Hd. tauto.
Qed.

Lemma in_firstn {A} (x : A) k l : In x (firstn k l) -> In x l.
Proof.
  revert k. induction l as [|y l IH]; intros [|k] H; try contradiction.
  destruct H as [->|H]; [left; reflexivity|right; exact (IH k H)].
Qed.

Lemma descending_firstn k l :
  StronglySorted Z.gt l -> StronglySorted Z.gt (firstn k l).
Proof.
  intros H. revert k. induction H as [|d l _ IH Hd]; intros [|k];
    try constructor.
  - apply IH.
  - apply Forall_forall. intros e He. apply in_firstn in He.
    rewrite Forall_forall in Hd. exact (Hd e He).
Qed.

Lemma descending_offsets now a n :
  StronglySorted Z.gt
    (map (fun i => (now - i)%Z) (map Z.of_nat (seq a n))).
Proof.
  revert a. induction n as [|n IH]; intros a; [constructor|].
  simpl. constructor; [apply IH|].
  apply Forall_forall. intros e He. apply in_map_iff in He.
  destruct He as (i & <- & Hi). apply in_map_iff in Hi.
  destruct Hi as (k & <- & Hk). apply in_seq in Hk. lia.
Qed.

Lemma ascending_rev l :
  StronglySorted Z.gt l -> StronglySorted Z.lt (rev l).
Proof.
  induction 1 as [|d l _ IH Hd]; [constructor|].
  simpl. apply sorted_app; [exact IH|repeat constructor|].
  intros x y Hx [<-|[]]. apply in_rev in Hx.
  rewrite Forall_forall in Hd. specialize (Hd x Hx). lia.
Qed.

(** The dates [_get_date_range] returns, most recent last. *)
Lemma _get_date_range_unfold now days :
  _get_date_range now days =
  rev (firstn (Z.to_nat days)
         (filter (fun d => (weekday d <? 5)%Z)
            (map (fun i => (now - i)%Z) (range (days * 2))))).
Proof.
  unfold _get_date_range.
  destruct (Z_lt_le_dec 0 days) as [Hpos|Hneg].
  - rewrite date_loop_firstn by (simpl; lia).
    cbn [app length]. rewrite Nat.sub_0_r.
    apply sorted_descending. apply descending_firstn, descending_filter.
    unfold range. apply descending_offsets.
  - unfold range. replace (Z.to_nat (days * 2)) with 0%nat by lia.
    replace (Z.to_nat days) with 0%nat by lia. reflexivity.
Qed.

Lemma weekday_week d : weekday (d - 7) = weekday d.
Proof.
  unfold weekday. replace (d - 7 + 3)%Z with (d + 3 + (-1) * 7)%Z by lia.
  apply Z_mod_plus_full.
Qed.

Lemma weekday_offset now i :
  weekday (now - i) = (((now + 3) mod 7 - i) mod 7)%Z.
Proof.
  unfold weekday. rewrite Zminus_mod_idemp_l. f_equal. lia.
Qed.

Lemma weekday_count_ext now n a :
  length (filter (fun d => (weekday d <? 5)%Z)
            (map (fun i => (now - i)%Z) (map Z.of_nat (seq a n)))) =
  length (filter (fun k => ((((now + 3) mod 7 - Z.of_nat k) mod 7) <? 5)%Z)
            (seq a n)).
Proof.
  revert a. induction n as [|n IH]; intros a; [reflexivity|].
  cbn [seq map filter]. rewrite weekday_offset.
  destruct ((((now + 3) mod 7 - Z.of_nat a) mod 7) <? 5)%Z; simpl;
    rewrite IH; reflexivity.
Qed.

Lemma residue_count_shift r n a :
  length (filter (fun k => (((r - Z.of_nat k) mod 7) <? 5)%Z) (seq (7 + a) n)) =
  length (filter (fun k => (((r - Z.of_nat k) mod 7) <? 5)%Z) (seq a n)).
Proof.
  revert a. induction n as [|n IH]; intros a; [reflexivity|].
  cbn [seq filter].
  replace ((r - Z.of_nat (7 + a)) mod 7)%Z with ((r - Z.of_nat a) mod 7)%Z.
  - change (S (7 + a)) with (7 + S a)%nat.
    destruct (((r - Z.of_nat a) mod 7) <? 5)%Z; cbn [length];
      rewrite IH; reflexivity.
  - replace (r - Z.of_nat (7 + a))%Z with (r - Z.of_nat a + (-1) * 7)%Z by lia.
    symmetry. apply Z_mod_plus_full.
Qed.

Lemma residue_count_bound r n :
  (0 <= r < 7)%Z ->
  (5 * n <=
   7 * length (filter (fun k => (((r - Z.of_nat k) mod 7) <? 5)%Z) (seq 0 n))
   + 10)%nat.
Proof.
  intros Hr. induction n as [n IH] using (well_founded_induction lt_wf).
  assert (r = 0 \/ r = 1 \/ r = 2 \/ r = 3 \/ r = 4 \/ r = 5 \/ r = 6)%Z
    as Hcases by lia.
  destruct (Nat.lt_ge_cases n 7) as [Hsmall|Hbig].
  - do 7 (destruct n as [|n]; [
      destruct Hcases as [->|[->|[->|[->|[->|[->| ->]]]]]];
      vm_compute; repeat constructor|]).
    lia.
  - specialize (IH (n - 7)%nat ltac:(lia)). revert IH.
    assert (n = 7 + (n - 7))%nat as En by lia. revert En.
    generalize (n - 7)%nat. intros m -> IH.
    rewrite seq_app, filter_app, length_app.
    change (seq (0 + 7) m) with (seq (7 + 0) m).
    rewrite (residue_count_shift r m 0).
    assert (length (filter (fun k => (((r - Z.of_nat k) mod 7) <? 5)%Z)
                      (seq 0 7)) = 5%nat) as ->.
    { destruct Hcases as [->|[->|[->|[->|[->|[->| ->]]]]]]; reflexivity. }
    lia.
Qed.

Lemma weekdays_in_window now n :
  (5 * n <=
   7 * length (filter (fun d => (weekday d <? 5)%Z)
                 (map (fun i => (now - i)%Z) (map Z.of_nat (seq 0 n))))
   + 10)%nat.
Proof.
  rewrite weekday_count_ext. apply residue_count_bound.
  apply Z.mod_pos_bound. lia.
Qed.

Lemma descending_firstn_closed k l d d' :
  StronglySorted Z.gt l -> In d (firstn k l) -> In d' l -> (d <= d')%Z ->
  In d' (firstn k l).
Proof.
  intros H. revert k. induction H as [|a l _ IH Ha]; intros [|k] Hd Hd' Hle;
    try contradiction.
  cbn [firstn] in *. rewrite Forall_forall in Ha.
  destruct Hd' as [->|Hd']; [left; reflexivity|].
  destruct Hd as [->|Hd]; [specialize (Ha d' Hd'); lia|].
  right. exact (IH k Hd Hd' Hle).
Qed.

(** X15.  The dates [_get_date_range] returns for a run on day [now] are
    in strictly ascending order, are all weekdays among the last
    [2 * days] days up to [now], and are the most recent such weekdays: no
    weekday between a returned date and [now] is skipped.  For
    [days >= 2] there are exactly [days] of them; for [days = 1] the list
    is empty exactly when [now] is a Sunday. *)
Theorem trading_dates now days :
  let dates := _get_date_range now days in
  StronglySorted Z.lt dates /\
  Forall (fun d => (weekday d < 5 /\ now - 2 * days < d <= now)%Z) dates /\
  (Z.of_nat (length dates) <= Z.max 0 days)%Z /\
  ((2 <= days)%Z -> Z.of_nat (length dates) = days) /\
  (days = 1%Z -> (dates = [] <-> weekday now = 6%Z)) /\
  (forall d d', In d dates -> (d <= d' <= now)%Z -> (weekday d' < 5)%Z ->
     In d' dates).
Proof.
  cbn zeta. rewrite _get_date_range_unfold.
  set (W := filter (fun d => (weekday d <? 5)%Z)
              (map (fun i => (now - i)%Z) (range (days * 2)))).
  assert (StronglySorted Z.gt W) as HW
    by (apply descending_filter; unfold range; apply descending_offsets).
  assert (forall d, In d W <->
            (weekday d < 5 /\ now - 2 * days < d <= now)%Z) as HinW.
  { intros d. unfold W. rewrite filter_In, in_map_iff, Z.ltb_lt. split.
    - intros [(i & <- & Hi) Hwd]. unfold range in Hi.
      apply in_map_iff in Hi. destruct Hi as (k & <- & Hk).
      apply in_seq in Hk. split; [exact Hwd|lia].
    - intros [Hwd Hr]. split; [|exact Hwd].
      exists (now - d)%Z. split; [lia|]. unfold range.
      apply in_map_iff. exists (Z.to_nat (now - d)). split; [lia|].
      apply in_seq. lia. }
  split; [|split; [|split; [|split; [|split]]]].
  - apply ascending_rev. apply descending_firstn. exact HW.
  - apply Forall_forall. intros d Hd. apply in_rev, in_firstn in Hd.
    apply HinW. exact Hd.
  - rewrite length_rev. pose proof (firstn_le_length (Z.to_nat days) W). lia.
  - intros Hd. rewrite length_rev, length_firstn.
    pose proof (weekdays_in_window now (Z.to_nat (days * 2))) as Hc.
    fold (range (days * 2)) in Hc. fold W in Hc. lia.
  - intros ->. unfold W. change (range (1 * 2)) with [0; 1]%Z.
    change (Z.to_nat 1) with 1%nat. cbn [map filter].
    rewrite !weekday_offset.
    assert (weekday now = (now + 3) mod 7)%Z as Ew by reflexivity.
    rewrite Ew. pose proof (Z.mod_pos_bound (now + 3) 7 ltac:(lia)) as Hr.
    revert Hr. generalize ((now + 3) mod 7)%Z. intros r Hr.
    assert (r = 0 \/ r = 1 \/ r = 2 \/ r = 3 \/ r = 4 \/ r = 5 \/ r = 6)%Z
      as Hcases by lia.
    destruct Hcases as [->|[->|[->|[->|[->|[->| ->]]]]]]; vm_compute;
      split; congruence.
  - intros d d' Hd Hr Hwd. apply in_rev in Hd.
    apply (proj1 (in_rev _ _)).
    apply (descending_firstn_closed _ _ d d' HW Hd); [|lia].
    apply HinW. apply in_firstn, HinW in Hd. split; [exact Hwd|lia].
Qed.

(** * Further properties of the selection *)

Lemma other_tickers_map c df :
  map ticker
    (filter (fun r => negb (String.eqb (ticker r) (ticker c))) df) =
  filter (fun t => negb (String.eqb t (ticker c))) (map ticker df).
Proof.
  induction df as [|x df IH]; [reflexivity|].
  simpl. destruct (String.eqb (ticker x) (ticker c)); simpl;
    rewrite IH; reflexivity.
Qed.

Lemma distinct_without x (l : list string) :
  In x l ->
  length (nodup string_dec (filter (fun t => negb (String.eqb t x)) l)) =
  pred (length (nodup string_dec l)).
Proof.
  intros Hx.
  assert (Permutation
            (x :: nodup string_dec
                    (filter (fun t => negb (String.eqb t x)) l))
            (nodup string_dec l)) as Hp.
  { apply NoDup_Permutation.
    - constructor; [|apply NoDup_nodup].
      intros Hin. apply nodup_In, filter_In in Hin.
      destruct Hin as [_ Hin]. rewrite String.eqb_refl in Hin. discriminate.
    - apply NoDup_nodup.
    - intros t. rewrite nodup_In. split.
      + intros [<-|Hin]; [exact Hx|].
        apply nodup_In, filter_In in Hin. tauto.
      + intros Hin. destruct (String.eqb_spec t x) as [E|N].
        * left. symmetry. exact E.
        * right. apply nodup_In, filter_In. split; [exact Hin|].
          apply negb_true_iff, String.eqb_neq. exact N. }
  apply Permutation_length in Hp. simpl in Hp. lia.
Qed.

Lemma select_loop_distinct targets df selected :
  let distinct := length (nodup string_dec (map ticker df)) in
  ((distinct < length targets)%nat ->
   select_loop targets df selected = Raise ValueError) /\
  ((length targets <= distinct)%nat ->
   exists picked,
     select_loop targets df selected = Ok (selected ++ picked) /\
     length picked = length targets /\ NoDup picked /\
     forall t, In t picked -> In t (map ticker df)).
Proof.
  revert df selected.
  induction targets as [|target targets IH]; intros df selected; cbn zeta.
  - split; [simpl; lia|]. intros _. exists []. rewrite app_nil_r.
    repeat split; try constructor. intros t [].
  - cbn [select_loop length].
    destruct df as [|x df0] eqn:Edf.
    { split; [reflexivity|]. simpl. lia. }
    rewrite <- Edf.
    destruct (idxmin_nonempty
                (fun r => Qabs (percentile r - target)) df) as (c & Ec);
      [rewrite Edf; discriminate|].
    rewrite Ec. pose proof (idxmin_In _ _ _ Ec) as Hc.
    set (df' := filter (fun r => negb (String.eqb (ticker r) (ticker c))) df).
    assert (length (nodup string_dec (map ticker df')) =
            pred (length (nodup string_dec (map ticker df)))) as Hd.
    { unfold df'. rewrite other_tickers_map. apply distinct_without.
      apply in_map. exact Hc. }
    assert (1 <= length (nodup string_dec (map ticker df)))%nat as Hpos.
    { assert (In (ticker c) (nodup string_dec (map ticker df))) as Hin
        by (apply nodup_In, in_map; exact Hc).
      destruct (nodup string_dec (map ticker df)); [contradiction|simpl; lia]. }
    destruct (IH df' (selected ++ [ticker c])) as [IHerr IHok].
    cbn zeta in IHerr, IHok. rewrite Hd in IHerr, IHok. split.
    + intros Hlt. apply IHerr. lia.
    + intros Hle. destruct IHok as (picked & E & L & Hp & Hincl); [lia|].
      exists (ticker c :: picked). rewrite E, <- app_assoc.
      split; [reflexivity|]. split; [simpl; congruence|]. split.
      * constructor; [|exact Hp]. intros Hin. apply Hincl in Hin.
        apply in_map_iff in Hin. destruct Hin as (y & Ey & Hy).
        apply other_tickers_In in Hy. tauto.
      * intros t [<-|Hin]; [apply in_map; exact Hc|].
        apply Hincl in Hin. apply in_map_iff in Hin.
        destruct Hin as (y & Ey & Hy). apply other_tickers_In in Hy.
        apply in_map_iff. exists y. tauto.
Qed.

(** X16.  On a frame in which tickers repeat, [select_by_percentiles]
    succeeds only up to the number [D] of distinct available tickers: for
    [0 <= num_tickers <= D] it returns [num_tickers] different tickers, and
    for [D < num_tickers <= available rows] it raises [ValueError], because
    every pick removes all rows of its ticker and the frame runs empty. *)
Theorem selection_with_repeated_tickers liquidity_df num_tickers
    exclude_tickers :
  let df := available liquidity_df (excluded exclude_tickers) in
  let D := Z.of_nat (length (nodup string_dec (map ticker df))) in
  ((D < num_tickers <= Z.of_nat (length df))%Z ->
   select_by_percentiles liquidity_df num_tickers exclude_tickers
   = Raise ValueError) /\
  ((0 <= num_tickers <= D)%Z ->
   exists selected,
     select_by_percentiles liquidity_df num_tickers exclude_tickers
     = Ok selected /\
     Z.of_nat (length selected) = num_tickers /\ NoDup selected /\
     forall t, In t selected -> In t (map ticker df)).
Proof.
  intros df D. rewrite select_by_percentiles_unfold. fold df. cbn zeta.
  assert (length (nodup string_dec (map ticker df)) <= length df)%nat as HD.
  { rewrite <- (length_map ticker df).
    apply NoDup_incl_length; [apply NoDup_nodup|].
    intros t Ht. apply nodup_In in Ht. exact Ht. }
  split.
  - intros [Hlo Hhi].
    assert ((Z.of_nat (length df) <? num_tickers)%Z = false) as ->
      by (apply Z.ltb_ge; exact Hhi).
    destruct (linspace_returns 10 90 num_tickers ltac:(lia))
      as (targets & El & Ll).
    rewrite El. apply (select_loop_distinct targets df []). unfold D in Hlo.
    lia.
  - intros [Hlo Hhi].
    assert ((Z.of_nat (length df) <? num_tickers)%Z = false) as ->
      by (apply Z.ltb_ge; unfold D in Hhi; lia).
    destruct (linspace_returns 10 90 num_tickers Hlo) as (targets & El & Ll).
    rewrite El.
    destruct (select_loop_distinct targets df []) as [_ Hok].
    destruct Hok as (picked & E & L & Hp & Hincl); [unfold D in Hhi; lia|].
    exists picked. split; [exact E|]. split; [lia|]. split; assumption.
Qed.

(** A ranking listed twice has three distinct stocks among six rows: asking
    for four of them fails. *)
Lemma selection_with_repeated_tickers_witness :
  select_by_percentiles (example_ranking ++ example_ranking) 4
    (Some ["^BVSP"%string])
  = Raise ValueError.
Proof.
  apply (selection_with_repeated_tickers (example_ranking ++ example_ranking)
           4 (Some ["^BVSP"%string])).
  vm_compute. split; [reflexivity | discriminate].
Defined.

(** * The mid-price path in closed form, and sessions without trades *)

Section Path.

Context {np : NumPy}.

Lemma zip_with_nth {A B C} (f : A -> B -> C) l l' i a b :
  nth_error l i = Some a -> nth_error l' i = Some b ->
  nth_error (zip_with f l l') i = Some (f a b).
Proof.
  revert l' i. induction l as [|x l IH]; intros [|y l'] [|i] Ha Hb;
    try discriminate.
  - simpl in *. congruence.
  - simpl in *. exact (IH l' i Ha Hb).
Qed.

Lemma linspace_nth_Some start stop num targets i :
  linspace start stop num = Ok targets -> (Z.of_nat i < num)%Z ->
  exists x, nth_error targets i = Some x /\
            x == start
                 + inject_Z (Z.of_nat i) * ((stop - start) / inject_Z (num - 1)).
Proof.
  intros El Hi.
  destruct (Z.ltb_spec num 0) as [Hn|Hn]; [lia|].
  destruct (linspace_returns start stop num Hn) as (t' & E' & L').
  rewrite El in E'. injection E' as <-.
  destruct (nth_error targets i) as [x|] eqn:Ex.
  - exists x. split; [reflexivity|].
    exact (proj2 (linspace_nth _ _ _ _ _ _ El Ex)).
  - apply nth_error_None in Ex. lia.
Qed.

(** X17.  For a candle with low <= high and [K >= 2] ticks, the [i]-th mid
    price is [clip (open + (1 + trend_weight) * (close - open) * i / (K - 1)
    + noise_i)]: before clipping the path runs from the open to
    [close + trend_weight * (close - open)], beyond the close. *)
Theorem midpath_closed_form self row K s :
  Low row <= High row -> (2 <= K)%Z ->
  exists noise mids s',
    normal 0 ((High row - Low row) / 200) K s = Ok (noise, s') /\
    _generate_midpath self row K s = Ok (mids, s') /\
    length mids = Z.to_nat K /\
    forall i m z,
      nth_error mids i = Some m -> nth_error noise i = Some z ->
      m == clip (Open row
                 + (1 + trend_weight self) * (Close row - Open row)
                   * (inject_Z (Z.of_nat i) / inject_Z (K - 1))
                 + z) (Low row) (High row).
Proof.
  intros Hlh HK.
  assert (0 <= K)%Z as HK0 by lia.
  destruct (linspace_returns (Open row) (Close row) K HK0) as (path & Ep & Lp).
  destruct (linspace_returns 0 1 K HK0) as (ramp & Er & Lr).
  assert (0 <= (High row - Low row) / 200) as Hscale.
  { apply Qle_shift_div_l; [reflexivity|]. lra. }
  destruct (normal_returns 0 _ K s Hscale HK0) as (noise & s' & En & Ln).
  exists noise. eexists. exists s'. split; [exact En|].
  split; [unfold _generate_midpath, bind, lift; rewrite Ep, En, Er;
          reflexivity|].
  split; [rewrite length_map, !zip_with_length, length_map; lia|].
  intros i m z Hm Hz.
  assert (i < Z.to_nat K)%nat as Hi.
  { rewrite <- Ln. apply nth_error_Some. congruence. }
  destruct (linspace_nth_Some _ _ _ _ i Ep ltac:(lia)) as (p & Hp & Ep').
  destruct (linspace_nth_Some _ _ _ _ i Er ltac:(lia)) as (r & Hr & Er').
  rewrite nth_error_map in Hm.
  rewrite (zip_with_nth Qplus _ noise i
             (p + trend_weight self * (Close row - Open row) * r) z) in Hm;
    [|apply zip_with_nth; [exact Hp|]|exact Hz].
  2:{ rewrite nth_error_map, Hr. reflexivity. }
  simpl in Hm. injection Hm as <-.
  assert (inject_Z (K - 1) > 0) as Hd.
  { change 0 with (inject_Z 0). rewrite <- Zlt_Qlt. lia. }
  assert (p + trend_weight self * (Close row - Open row) * r + z ==
          Open row
          + (1 + trend_weight self) * (Close row - Open row)
            * (inject_Z (Z.of_nat i) / inject_Z (K - 1)) + z) as E.
  { rewrite Ep', Er'. field. lra. }
  unfold clip. rewrite E. reflexivity.
Qed.

Lemma single_ticks d :
  Forall (fun x => x == 1) d ->
  Zsum (map (fun x => Z.max 1 (trunc x)) d) = Z.of_nat (length d).
Proof.
  induction 1 as [|x d Hx _ IH]; [reflexivity|].
  cbn [map Zsum fold_right length].
  fold (Zsum (map (fun x => Z.max 1 (trunc x)) d)). rewrite IH.
  assert (trunc x = 1%Z) as ->.
  { rewrite trunc_nonneg by lra. rewrite Hx. reflexivity. }
  lia.
Qed.

(** X18.  With a session statistic [totneg = T <= 0] (a session without
    trades), every frame [generate_ticks] returns holds exactly one tick
    per retained candle. *)
Theorem one_tick_per_candle_without_trades self df b3_stats T s out s' :
  session_statistic b3_stats T -> (T <= 0)%Z ->
  generate_ticks self df b3_stats s = Ok (out, s') ->
  length (records out) = length (dropna df).
Proof.
  intros Hstat HT H. apply generate_ticks_Ok in H.
  destruct H as (dist & s1 & all & Hs & Hl & Hne & Hout).
  rewrite (schedule_statistic _ _ _ _ Hstat) in Hs.
  apply bind_Ok in Hs. destruct Hs as (d & s2 & Hd & Hs).
  apply ret_Ok in Hs. destruct Hs as [-> ->].
  pose proof (_calculate_intraday_distribution_returns
                (length (dropna df)) T s) as (d' & s3 & Ed & Ld).
  rewrite Ed in Hd. injection Hd as <- <-.
  apply _calculate_intraday_distribution_Ok in Ed.
  destruct Ed as (u & Lu & Fu & ->).
  apply candle_loop_Some_length in Hl. destruct Hl as [Hlen _].
  rewrite skipn_O, <- Ld, firstn_all in Hlen.
  rewrite Hout, sort_by_time_length. apply Nat2Z.inj. rewrite Hlen, <- Ld.
  apply single_ticks.
  assert (0 <= Qsum u) as HS.
  { clear - Fu. induction Fu as [|a u Ha _ IH]; simpl; lra. }
  apply Forall_forall. intros x Hx. apply in_map_iff in Hx.
  destruct Hx as (y & <- & Hy). apply in_map_iff in Hy.
  destruct Hy as (w & <- & Hw). rewrite Forall_forall in Fu.
  specialize (Fu w Hw).
  assert (inject_Z T <= 0) as HTq
    by (change 0 with (inject_Z 0); rewrite <- Zle_Qle; exact HT).
  apply Q.max_l.
  assert (0 <= w / Qsum u) as Hq.
  { unfold Qdiv. apply Qmult_le_0_compat; [lra|]. apply Qinv_le_0_compat.
    exact HS. }
  assert (w / Qsum u * inject_Z T <= 0) by nra. lra.
Qed.

End Path.

Lemma midpath_closed_form_witness :
  exists noise mids s',
    @normal calm 0 ((High example_row - Low example_row) / 200) 3 seeded
    = Ok (noise, s') /\
    @_generate_midpath calm (default_generator 3) example_row 3 seeded
    = Ok (mids, s') /\
    length mids = Z.to_nat 3 /\
    forall i m z,
      nth_error mids i = Some m -> nth_error noise i = Some z ->
      m == clip (Open example_row
                 + (1 + trend_weight (default_generator 3))
                   * (Close example_row - Open example_row)
                   * (inject_Z (Z.of_nat i) / inject_Z (3 - 1))
                 + z) (Low example_row) (High example_row).
Proof.
  apply (@midpath_closed_form calm (default_generator 3) example_row 3 seeded).
  - vm_compute. discriminate.
  - lia.
Defined.

Lemma one_tick_per_candle_witness :
  exists out s',
    @generate_ticks calm (default_generator 120) two_candles
      (Some [("totneg"%string, 0%Z)]) seeded = Ok (out, s') /\
    length (records out) = length (dropna two_candles).
Proof.
  eexists _, _. split; [vm_compute; reflexivity|].
  eapply (@one_tick_per_candle_without_trades calm (default_generator 120)
            two_candles (Some [("totneg"%string, 0%Z)]) 0 seeded _ _).
  - eexists _, _. split; reflexivity.
  - lia.
  - vm_compute. reflexivity.
Defined.
